(** * StateStorage: archives of states of a state space

    A shallow embedding of [src/ompl/base/src/StateStorage.cpp]: the binary
    archive format written by [StateStorage::store], the reader
    [StateStorage::loadHeader] / [StateStorage::load], the collection
    operations [addState], [generateSamples], [clear], and the sampler
    allocator [getStateSamplerAllocator] / [allocPrecomputedStateSampler].

    Conventions of the embedding.
    - Machine integers are [Z] with their wrap-around written out.  The
      object representation is the one of the LP64 little-endian targets the
      library is built for: [int], [unsigned int] and [boost::uint32_t] take
      4 bytes, [std::size_t] takes 8 bytes, least significant byte first.
    - A [std::istream] is the list of bytes still to come together with its
      [eofbit], [failbit] and [badbit]; [std::istream::read] follows the
      C++ standard: on a stream that is not [good()] it stores nothing and
      sets [failbit]; when fewer bytes than requested remain it stores those
      that remain and sets [eofbit|failbit] (or [badbit] for a device error).
    - A [State*] is a [handle] into the heap of states owned by the state
      space; [allocState] and [freeState] are recorded in a trace.
    - Behaviour the C++ standard leaves undefined (reading [sig[i]] past the
      end of the vector, freeing or reading a state that is not allocated,
      reading or writing a scratch buffer past its end) is the outcome
      [Undefined].
    - [malloc] returns a buffer or [NULL]; the sizes for which it returns
      a buffer are a field of the state, [malloc_grants].  [load] tests the
      result and skips the read on [NULL]; [store] uses the result
      unchecked, and its embedding covers the runs in which it is a buffer.
    - The file-name overloads of [load] and [store] open and close a file
      stream around the stream versions; the files are a map from names to
      bytes.  [print] calls the printer of the state space on each state. *)

From Stdlib Require Import ZArith List Lia String.
From coqutil Require Import Byte Word.LittleEndianList.
From stdpp Require Import gmap list strings pretty.
Import ListNotations.
Open Scope Z_scope.

(** ** Machine integers and their object representation *)

Definition sizeof_int : nat := 4.
Definition sizeof_uint32_t : nat := 4.
Definition sizeof_size_t : nat := 8.

Definition INT_MIN : Z := - 2 ^ 31.
Definition INT_MAX : Z := 2 ^ 31 - 1.
Definition UINT_MAX : Z := 2 ^ 32 - 1.
Definition SIZE_MAX : Z := 2 ^ 64 - 1.

(** Arithmetic on [std::size_t] is modulo [2^64]. *)
Definition wrap_size_t (z : Z) : Z := z mod 2 ^ 64.

(** The bytes of an object of [n] bytes that holds the integer [z]. *)
Definition object_bytes (n : nat) (z : Z) : list byte := le_split n z.

(** The unsigned integer held by an object with the given bytes. *)
Definition unsigned_of_bytes (bs : list byte) : Z := le_combine bs.

(** The [int] held by an object with the given bytes (two's complement). *)
Definition int_of_bytes (bs : list byte) : Z :=
  let u := le_combine bs in
  if u <? 2 ^ 31 then u else u - 2 ^ 32.

Definition is_int (z : Z) : Prop := INT_MIN <= z <= INT_MAX.

(** ** Streams *)

Record istream := mkIstream {
  in_bytes : list byte;   (* what the device will still deliver *)
  eofbit : bool;
  failbit : bool;
  badbit : bool;
  io_error : bool         (* the device fails, instead of ending, when it runs out *)
}.

Definition good (s : istream) : bool :=
  negb (eofbit s || failbit s || badbit s).
Definition eof (s : istream) : bool := eofbit s.
Definition fail (s : istream) : bool := failbit s || badbit s.

Definition set_failbit (s : istream) : istream :=
  mkIstream (in_bytes s) (eofbit s) true (badbit s) (io_error s).

Definition advance (n : nat) (s : istream) : istream :=
  mkIstream (drop n (in_bytes s)) (eofbit s) (failbit s) (badbit s) (io_error s).

Definition exhaust (s : istream) : istream :=
  if io_error s
  then mkIstream [] (eofbit s) (failbit s) true (io_error s)
  else mkIstream [] true true (badbit s) (io_error s).

(** [in.read(dst, n)]: the pair of the new content of the [n] bytes at [dst]
    and the stream afterwards. *)
Definition read (n : nat) (dst : list byte) (s : istream) : list byte * istream :=
  if good s then
    if (n <=? length (in_bytes s))%nat
    then (take n (in_bytes s), advance n s)
    else (in_bytes s ++ drop (length (in_bytes s)) dst, exhaust s)
  else (dst, set_failbit s).

(** A stream opened on the given bytes. *)
Definition istream_of (bs : list byte) : istream :=
  mkIstream bs false false false false.

Record ostream := mkOstream {
  out_bytes : list byte;  (* what has been written so far *)
  out_good : bool
}.

(** [out.write(src, n)] where [bs] are the [n] bytes at [src]. *)
Definition write (bs : list byte) (o : ostream) : ostream :=
  if out_good o then mkOstream (out_bytes o ++ bs) true else o.

(** ** Scratch buffers *)

(** [malloc(n)]; the content is never read before it is written. *)
Definition malloc (n : Z) : list byte := repeat Byte.x00 (Z.to_nat n).

(** The [n] bytes at [buffer + off], when they lie inside the buffer. *)
Definition peek (buffer : list byte) (off : Z) (n : Z) : option (list byte) :=
  if (0 <=? off) && (0 <=? n) && (off + n <=? Z.of_nat (length buffer))
  then Some (take (Z.to_nat n) (drop (Z.to_nat off) buffer))
  else None.

(** Writing [bs] at [buffer + off], when that lies inside the buffer. *)
Definition poke (buffer : list byte) (off : Z) (bs : list byte) : option (list byte) :=
  if (0 <=? off) && (off + Z.of_nat (length bs) <=? Z.of_nat (length buffer))
  then Some (take (Z.to_nat off) buffer ++ bs
             ++ drop (Z.to_nat off + length bs) buffer)
  else None.

(** ** Diagnostics *)

Inductive level := Debug | Warn | Error.

Record message := Msg { msg_level : level; msg_text : string }.

Definition reported (m : message) : bool :=
  match msg_level m with Debug => false | _ => true end.

(** ** The state space (an external collaborator) *)

(** A signature is a vector of [int]; element 0 is the number of elements
    that follow it. *)
Definition signature_ok (sig : list Z) : Prop :=
  Forall is_int sig
  /\ sig !! 0%nat = Some (Z.of_nat (length sig) - 1).

(** The bytes of the elements of a [std::vector<int>], in order. *)
Definition vector_bytes (v : list Z) : list byte :=
  concat (map (object_bytes sizeof_int) v).

Definition handle := positive.

Inductive event := EvAlloc (h : handle) | EvFree (h : handle).

Section Space.

Context {St Rng : Type}.

Record StateSpace := mkStateSpace {
  getName : string;
  computeSignature : list Z;          (* the vector filled by computeSignature *)
  getSerializationLength : Z;         (* unsigned int *)
  allocState_value : St;              (* content of a state just allocated *)
  serialize : St -> list byte;        (* the bytes serialize() stores *)
  deserialize : list byte -> St;      (* the state deserialize() decodes *)
  allocStateSampler_rng : nat -> Rng; (* generator of the n-th sampler allocated *)
  sampleUniform : Rng -> St * Rng
}.

(** What the archive relies on from a state space. *)
Record StateSpaceOk (sp : StateSpace) : Prop := {
  signature_of_space : signature_ok (computeSignature sp);
  serialization_length_range : 0 <= getSerializationLength sp <= UINT_MAX;
  serialize_length :
    forall st, Z.of_nat (length (serialize sp st)) = getSerializationLength sp;
  serialize_deserialize :
    forall st, serialize sp (deserialize sp (serialize sp st)) = serialize sp st
}.

(** ** The archive and the heap of states *)

Record state := mkState {
  states_ : list handle;     (* StateStorage::states_ *)
  msg_ : list message;       (* what went through StateStorage::msg_ *)
  heap : gmap handle St;     (* the states allocated and not yet freed *)
  trace : list event;        (* calls of allocState and freeState, in order *)
  samplers : nat;            (* number of samplers allocated so far *)
  malloc_grants : Z -> bool  (* whether malloc(n) returns a buffer, not NULL *)
}.

Inductive result (A : Type) := Defined (a : A) | Undefined.
Global Arguments Defined {A} a.
Global Arguments Undefined {A}.

Definition M (A : Type) : Type := state -> result (A * state).

Definition ret {A} (a : A) : M A := fun σ => Defined (a, σ).

Definition bind {A B} (m : M A) (k : A -> M B) : M B :=
  fun σ => match m σ with
           | Defined (a, σ') => k a σ'
           | Undefined => Undefined
           end.

Definition undefined {A} : M A := fun _ => Undefined.

Definition lift {A} (o : option A) : M A :=
  match o with Some a => ret a | None => undefined end.

End Space.

Global Arguments StateSpace : clear implicits.
Global Arguments state : clear implicits.
Global Arguments M : clear implicits.

Notation "x <- m ;; k" := (bind m (fun x => k))
  (at level 100, m at next level, right associativity).
Notation "m ;;; k" := (bind m (fun _ => k))
  (at level 100, right associativity).

(** ** Operations of the state space on the heap *)

Section StateStorage.

Context {St Rng : Type}.

(** [StateStorage::space_], fixed by the constructor. *)
Variable space_ : StateSpace St Rng.

Local Abbreviation M := (M St).

(** [msg_.debug], [msg_.warn], [msg_.error]; a message is recorded by its
    format string. *)
Definition logged (lv : level) (text : string) (σ : state St) : state St :=
  mkState (states_ σ) (msg_ σ ++ [Msg lv text]) (heap σ) (trace σ) (samplers σ)
          (malloc_grants σ).

Definition msg (lv : level) (text : string) : M unit := fun σ =>
  Defined (tt, logged lv text σ).

Definition allocState : M handle := fun σ =>
  let h := fresh (dom (heap σ)) in
  Defined (h, mkState (states_ σ) (msg_ σ)
                      (<[h := allocState_value space_]> (heap σ))
                      (trace σ ++ [EvAlloc h]) (samplers σ) (malloc_grants σ)).

Definition freeState (h : handle) : M unit := fun σ =>
  match heap σ !! h with
  | Some _ =>
      Defined (tt, mkState (states_ σ) (msg_ σ) (delete h (heap σ))
                           (trace σ ++ [EvFree h]) (samplers σ)
                           (malloc_grants σ))
  | None => Undefined
  end.

(** Reading and overwriting the state behind a [State*]. *)
Definition get_state (h : handle) : M St := fun σ =>
  match heap σ !! h with
  | Some st => Defined (st, σ)
  | None => Undefined
  end.

Definition put_state (h : handle) (st : St) : M unit := fun σ =>
  match heap σ !! h with
  | Some _ =>
      Defined (tt, mkState (states_ σ) (msg_ σ) (<[h := st]> (heap σ))
                           (trace σ) (samplers σ) (malloc_grants σ))
  | None => Undefined
  end.

Definition allocStateSampler : M Rng := fun σ =>
  Defined (allocStateSampler_rng space_ (samplers σ),
           mkState (states_ σ) (msg_ σ) (heap σ) (trace σ) (S (samplers σ))
                   (malloc_grants σ)).

(** [v[i]] on a [std::vector]. *)
Definition vector_at {A} (v : list A) (i : Z) : M A :=
  if 0 <=? i then lift (v !! Z.to_nat i) else undefined.

(** [a == b] on [std::vector<int>]: equal sizes and equal elements. *)
Definition vector_eq (a b : list Z) : bool :=
  (length a =? length b)%nat
  && forallb (fun p => fst p =? snd p) (combine a b).

(** ** The archive *)

Definition OMPL_ARCHIVE_MARKER : Z := 0x4C504D4F.

Record Header := mkHeader { state_count : Z; metadata_size : Z }.

Definition get_states : M (list handle) := fun σ => Defined (states_ σ, σ).

Definition set_states (hs : list handle) : M unit := fun σ =>
  Defined (tt, mkState hs (msg_ σ) (heap σ) (trace σ) (samplers σ)
                       (malloc_grants σ)).

(** [StateStorage::addState] *)
Definition addState (s : handle) : M unit :=
  hs <- get_states ;; set_states (hs ++ [s]).

(** [StateStorage::clear] *)
Fixpoint clear_loop (hs : list handle) : M unit :=
  match hs with
  | [] => ret tt
  | h :: hs' => freeState h ;;; clear_loop hs'
  end.

Definition clear : M unit :=
  hs <- get_states ;; clear_loop hs ;;; set_states [].

(** [StateStorage::loadHeader], lines 120-129: the loop over the elements of
    the signature, [n] iterations before [i] reaches [signature_length].  The
    result is [false] when the function has returned [false] from inside
    the loop. *)
Fixpoint loadHeader_loop (sig : list Z) (n : nat) (i : Z) (in_ : istream)
  : M (bool * istream) :=
  match n with
  | O => ret (true, in_)
  | S n' =>
      if good in_ then
        let r := read sizeof_int (object_bytes sizeof_int 0) in_ in
        let s := int_of_bytes (fst r) in
        e <- vector_at sig (i + 1) ;;
        if negb (s =? e) then
          msg Error "State space signatures do not match" ;;;
          ret (false, snd r)
        else loadHeader_loop sig n' (i + 1) (snd r)
      else ret (true, in_)
  end.

(** [StateStorage::loadHeader], lines 108-129: the check of the signature. *)
Definition loadHeader_signature (in_ : istream) : M (bool * istream) :=
  let sig := computeSignature space_ in
  let r := if good in_
           then read sizeof_int (object_bytes sizeof_int 0) in_
           else (object_bytes sizeof_int 0, in_) in
  let signature_length := int_of_bytes (fst r) in
  e <- vector_at sig 0 ;;
  if negb (e =? signature_length) then
    msg Error "State space signatures do not match" ;;;
    ret (false, snd r)
  else loadHeader_loop sig (Z.to_nat signature_length) 0 (snd r).

(** [StateStorage::loadHeader], lines 130-153: the two size fields.
    [Some header] stands for the result [true] with [header] filled in,
    [None] for the result [false]. *)
Definition loadHeader_counts (in1 : istream) : M (option Header * istream) :=
  if good in1 then
    let r1 := read sizeof_size_t (object_bytes sizeof_size_t 0) in1 in
    let state_count := unsigned_of_bytes (fst r1) in
    let in2 := snd r1 in
    if good in2 then
      let r2 := read sizeof_size_t (object_bytes sizeof_size_t 0) in2 in
      let metadata_size := unsigned_of_bytes (fst r2) in
      let in3 := snd r2 in
      if (0 <? state_count) && negb (good in3) then
        msg Error "Expected state data. Incorrect file format" ;;;
        ret (None, in3)
      else ret (Some (mkHeader state_count metadata_size), in3)
    else
      msg Error "Expected metadata size. Incorrect file format" ;;;
      ret (None, in2)
  else
    msg Error "Expected number of states. Incorrect file format" ;;;
    ret (None, in1).

(** [StateStorage::loadHeader] *)
Definition loadHeader (in_ : istream) : M (option Header * istream) :=
  if negb (good in_) || eof in_ then
    msg Warn "Unable to load states" ;;; ret (None, in_)
  else
    let r0 := read sizeof_uint32_t (object_bytes sizeof_uint32_t 0) in_ in
    let marker := unsigned_of_bytes (fst r0) in
    if negb (marker =? OMPL_ARCHIVE_MARKER) then
      msg Error "The stored data does not start with the correct header" ;;;
      ret (None, snd r0)
    else
      c <- loadHeader_signature (snd r0) ;;
      if negb (fst c) then ret (None, snd c)
      else loadHeader_counts (snd c).

(** The size of the scratch buffer of [load], computed on [std::size_t]. *)
Definition payload_length (header : Header) : Z :=
  wrap_size_t (state_count header
               * wrap_size_t (getSerializationLength space_
                              + metadata_size header)).

(** [StateStorage::load], lines 175-180: [n] iterations before [i] reaches
    [header.state_count]. *)
Fixpoint load_loop (header : Header) (buffer : list byte) (n : nat) (i : Z)
  : M unit :=
  match n with
  | O => ret tt
  | S n' =>
      let l := getSerializationLength space_ in
      s <- allocState ;;
      bs <- lift (peek buffer
                       (wrap_size_t (i * wrap_size_t (l + metadata_size header)))
                       l) ;;
      put_state s (deserialize space_ bs) ;;;
      addState s ;;;
      load_loop header buffer n' (i + 1)
  end.

(** [length ? (char* )malloc(length) : NULL] in [load]: [None] stands for
    [NULL], when the size is 0 or when [malloc] returns no buffer. *)
Definition malloc_or_NULL (length : Z) : M (option (list byte)) := fun σ =>
  Defined (if length =? 0 then None
           else if malloc_grants σ length then Some (malloc length) else None,
           σ).

(** [StateStorage::load(std::istream&)]; [reserve] has no effect that can
    be observed. *)
Definition load (in_ : istream) : M istream :=
  clear ;;;
  r <- loadHeader in_ ;;
  match fst r with
  | None => ret (snd r)
  | Some header =>
      let length := payload_length header in
      buffer <- malloc_or_NULL length ;;
      match buffer with
      | Some buffer =>
          let b := read (Z.to_nat length) buffer (snd r) in
          if negb (fail (snd b)) then
            msg Debug "Deserializing %u states" ;;;
            load_loop header (fst b) (Z.to_nat (state_count header)) 0 ;;;
            ret (snd b)
          else
            msg Error "Unable to read state data. Incorrect file format" ;;;
            ret (snd b)
      | None => ret (snd r)
      end
  end.

(** [StateStorage::store], lines 228-229. *)
Fixpoint store_loop (l : Z) (hs : list handle) (i : Z) (buffer : list byte)
  : M (list byte) :=
  match hs with
  | [] => ret buffer
  | h :: hs' =>
      st <- get_state h ;;
      buffer' <- lift (poke buffer (wrap_size_t (i * l)) (serialize space_ st)) ;;
      store_loop l hs' (i + 1) buffer'
  end.

(** [StateStorage::store(std::ostream&)]; the source uses the result of
    [malloc] unchecked, and the embedding covers the runs in which it is a
    buffer. *)
Definition store (out : ostream) : M ostream :=
  if negb (out_good out) then
    msg Warn "Unable to store states" ;;; ret out
  else
    let out1 := write (object_bytes sizeof_uint32_t OMPL_ARCHIVE_MARKER) out in
    let sig := computeSignature space_ in
    vector_at sig 0 ;;;
    let out2 := write (vector_bytes sig) out1 in
    hs <- get_states ;;
    let nr_states := Z.of_nat (length hs) in
    let out3 := write (object_bytes sizeof_size_t nr_states) out2 in
    let metadata_size := 0 in
    let out4 := write (object_bytes sizeof_size_t metadata_size) out3 in
    msg Debug "Serializing %u states" ;;;
    let l := getSerializationLength space_ in
    let length := wrap_size_t (l * nr_states) in
    buffer <- store_loop l hs 0 (malloc length) ;;
    ret (write buffer out4).

(** [StateStorage::generateSamples], lines 243-248. *)
Fixpoint generateSamples_loop (n : nat) (ss : Rng) : M unit :=
  match n with
  | O => ret tt
  | S n' =>
      s <- allocState ;;
      let r := sampleUniform space_ ss in
      put_state s (fst r) ;;;
      addState s ;;;
      generateSamples_loop n' (snd r)
  end.

(** [StateStorage::generateSamples]; [count] is an [unsigned int]. *)
Definition generateSamples (count : Z) : M unit :=
  ss <- allocStateSampler ;;
  generateSamples_loop (Z.to_nat count) ss.

End StateStorage.

(** ** Samplers over a stored collection *)

Section Sampler.

Context {St Rng : Type}.

Record Exception := mkException { what : string }.

(** The sampler built by [new PrecomputedStateSampler(space, *states)],
    kept as the arguments of its constructor. *)
Record PrecomputedStateSampler := mkPrecomputedStateSampler {
  sampler_space : StateSpace St Rng;
  sampler_states : list handle
}.

(** [ss << v[i] << " "] for every element. *)
Definition show_signature (v : list Z) : string :=
  foldr (fun e acc => pretty e +:+ " " +:+ acc) "" v.

(** [allocPrecomputedStateSampler]: [inl] is the exception thrown, [inr]
    the sampler returned; [states] is the vector behind the pointer. *)
Definition allocPrecomputedStateSampler (space : StateSpace St Rng)
    (expectedSignature : list Z) (states : list handle)
  : Exception + PrecomputedStateSampler :=
  let sig := computeSignature space in
  if negb (vector_eq sig expectedSignature) then
    inl (mkException
      ("Cannot allocate state sampler for a state space whose signature does not match that of the stored states. "
       +:+ "Expected signature " +:+ show_signature expectedSignature
       +:+ "but space " +:+ getName space +:+ " has signature "
       +:+ show_signature sig))
  else inr (mkPrecomputedStateSampler space states).

(** The function object made by [boost::bind]: the signature is bound by
    value, the collection by its address in the archive. *)
Record StateSamplerAllocator := mkStateSamplerAllocator {
  bound_signature : list Z
}.

(** [StateStorage::getStateSamplerAllocator] *)
Definition getStateSamplerAllocator (space_ : StateSpace St Rng)
  : M St StateSamplerAllocator :=
  ret (mkStateSamplerAllocator (computeSignature space_)).

(** Calling the allocator on [space]: [&states_] is read at the call. *)
Definition call_allocator (f : StateSamplerAllocator) (space : StateSpace St Rng)
  : M St (Exception + PrecomputedStateSampler) :=
  hs <- get_states ;;
  ret (allocPrecomputedStateSampler space (bound_signature f) hs).

End Sampler.

Global Arguments PrecomputedStateSampler : clear implicits.

(** ** Vocabulary of the statements *)

(** The successive draws of a sampler. *)
Fixpoint samples {St Rng} (sp : StateSpace St Rng) (n : nat) (ss : Rng) : list St :=
  match n with
  | O => []
  | S n' => fst (sampleUniform sp ss) :: samples sp n' (snd (sampleUniform sp ss))
  end.

(** One turn of the loops that allocate a state, fill it and add it. *)
Definition with_new_state {St} (σ : state St) (st : St) : state St :=
  let h := fresh (dom (heap σ)) in
  mkState (states_ σ ++ [h]) (msg_ σ) (<[h := st]> (heap σ))
          (trace σ ++ [EvAlloc h]) (samplers σ) (malloc_grants σ).

(** The first index at which two vectors differ. *)
Fixpoint first_mismatch (a b : list Z) : option nat :=
  match a, b with
  | x :: a', y :: b' =>
      if x =? y then S <$> first_mismatch a' b' else Some 0%nat
  | _, _ => None
  end.

(** The archive owns its states: they are distinct and allocated. *)
Definition archive_ok {St} (σ : state St) : Prop :=
  NoDup (states_ σ) /\ forall h, h ∈ states_ σ -> is_Some (heap σ !! h).

(** The archive after [clear]. *)
Definition cleared {St} (σ : state St) : state St :=
  mkState [] (msg_ σ) (foldl (fun m h => delete h m) (heap σ) (states_ σ))
          (trace σ ++ map EvFree (states_ σ)) (samplers σ) (malloc_grants σ).

(** The bytes [store] writes before the states. *)
Definition header_bytes (sig : list Z) (count size : Z) : list byte :=
  object_bytes sizeof_uint32_t OMPL_ARCHIVE_MARKER ++ vector_bytes sig
  ++ object_bytes sizeof_size_t count ++ object_bytes sizeof_size_t size.

(** What [store] appended to a stream. *)
Definition written (out out' : ostream) : list byte :=
  drop (length (out_bytes out)) (out_bytes out').

(** The bytes of a header for the signature [sig] and no state, cut inside
    the field [metadata_size]: only [tail] is left of it. *)
Definition header_without_metadata_size (sig : list Z) (tail : list byte)
  : list byte :=
  object_bytes sizeof_uint32_t OMPL_ARCHIVE_MARKER ++ vector_bytes sig
  ++ object_bytes sizeof_size_t 0 ++ tail.

(** The payload size a header declares, as a number. *)
Definition declared_payload {St Rng} (sp : StateSpace St Rng) (header : Header) : Z :=
  state_count header * (getSerializationLength sp + metadata_size header).

(** No warning and no error among the messages added from [σ] to [σ']. *)
Definition nothing_reported {St} (σ σ' : state St) : Prop :=
  Forall (fun m => reported m = false) (drop (length (msg_ σ)) (msg_ σ')).

(** "On a header that meets [cond], a payload shorter than [size header]
    makes [load] report truncated data and leave no state, without
    allocating any." *)
Definition load_reports_truncation {St Rng} (sp : StateSpace St Rng)
    (size : Header -> Z) (cond : Header -> Prop) (in_ : istream) (σ : state St)
  : Prop :=
  forall header in1 σ1,
    (clear ;;; loadHeader sp in_) σ = Defined ((Some header, in1), σ1) ->
    0 < state_count header ->
    Z.of_nat (length (in_bytes in1)) < size header ->
    cond header ->
    exists in' σ',
      load sp in_ σ = Defined (in', σ')
      /\ states_ σ' = []
      /\ msg_ σ' = msg_ σ ++ [Msg Error "Unable to read state data. Incorrect file format"]
      /\ trace σ' = trace σ ++ map EvFree (states_ σ).

(** "After a load that succeeds, on a header that meets [cond], the
    collection has [state_count] states, and the states held before were
    freed before any state was allocated." *)
Definition load_replaces {St Rng} (sp : StateSpace St Rng)
    (cond : Header -> Prop) (in_ : istream) (σ : state St) : Prop :=
  forall header in1 σ1 in' σ',
    (clear ;;; loadHeader sp in_) σ = Defined ((Some header, in1), σ1) ->
    load sp in_ σ = Defined (in', σ') ->
    nothing_reported σ σ' ->
    cond header ->
    Z.of_nat (length (states_ σ')) = state_count header
    /\ trace σ' = trace σ ++ map EvFree (states_ σ) ++ map EvAlloc (states_ σ').


(** ** Example state spaces and archives *)

(** A state space of single [int] values: 4 bytes per state. *)
Definition IntSpace : StateSpace Z Z :=
  mkStateSpace "ints" [2; 7; 1] 4 0 (object_bytes sizeof_int) int_of_bytes
    (fun n => Z.of_nat n) (fun g => (g mod 100, (g * 75 + 74) mod 65537)).

(** A state space whose states take no byte, like a vector space of
    dimension 0 or a compound space without components. *)
Definition ZeroSpace : StateSpace Z Z :=
  mkStateSpace "empty" [2; 1; 0] 0 0 (fun _ => []) (fun _ => 0)
    (fun n => Z.of_nat n) (fun g => (0, g)).

(** A state space of 8-byte values, with another signature. *)
Definition WideSpace : StateSpace Z Z :=
  mkStateSpace "wide" [2; 7; 2] 8 0 (object_bytes sizeof_size_t) unsigned_of_bytes
    (fun n => Z.of_nat n) (fun g => (g mod 100, (g * 75 + 74) mod 65537)).

(** A state space whose [computeSignature] leaves the vector empty. *)
Definition UnsignedSpace : StateSpace Z Z :=
  mkStateSpace "unsigned" [] 4 0 (object_bytes sizeof_int) int_of_bytes
    (fun n => Z.of_nat n) (fun g => (g mod 100, (g * 75 + 74) mod 65537)).

(** An allocator that grants the requests that fit the 47 bits of a user
    address space. *)
Definition address_space (n : Z) : bool := 2 ^ 47 >? n.

(** An archive with no state, no message and an empty heap. *)
Definition empty_archive : state Z := mkState [] [] ∅ [] 0 address_space.

(** An archive that holds one state. *)
Definition one_state_archive : state Z :=
  mkState [1%positive] [] {[ 1%positive := 0 ]} [] 0 address_space.

(** An archive that holds the states 5 and -3. *)
Definition two_state_archive : state Z :=
  mkState [1%positive; 2%positive] []
          (<[ 1%positive := 5 ]> {[ 2%positive := -3 ]}) [] 0 address_space.

(** What [store] writes for [two_state_archive] and [IntSpace]. *)
Definition two_state_bytes : list byte :=
  header_bytes (computeSignature IntSpace) 2 0
  ++ object_bytes sizeof_int 5 ++ object_bytes sizeof_int (-3).

(** A header for [IntSpace] that declares one state and a [metadata_size]
    of [SIZE_MAX - 3], followed by no payload. *)
Definition wrapping_metadata_archive : list byte :=
  header_bytes (computeSignature IntSpace) 1 (2 ^ 64 - 4).

(** A header for [IntSpace] that declares [2^62] states and no metadata,
    followed by no payload. *)
Definition wrapping_count_archive : list byte :=
  header_bytes (computeSignature IntSpace) (2 ^ 62) 0.


(** A header for [IntSpace] that declares [2^60] states and no metadata,
    followed by the 8 bytes of two states: a buffer of [2^62] bytes is asked
    of [malloc]. *)
Definition oversized_archive : list byte :=
  header_bytes (computeSignature IntSpace) (2 ^ 60) 0
  ++ object_bytes sizeof_int 5 ++ object_bytes sizeof_int (-3).

(** ** The rest of the class *)

Section Printing.

Context {St Rng : Type}.

(** The bytes [space_->printState(state, out)] sends to [out]; the printer
    belongs to the state space. *)
Variable printState : St -> list byte.

(** [StateStorage::print], lines 260-261. *)
Fixpoint print_loop (hs : list handle) (out : ostream) : M St ostream :=
  match hs with
  | [] => ret out
  | h :: hs' =>
      st <- get_state h ;;
      print_loop hs' (write (printState st) out)
  end.

(** [StateStorage::print] *)
Definition print (out : ostream) : M St ostream :=
  hs <- get_states ;; print_loop hs out.

End Printing.

(** [StateStorage::StateStorage]: an archive without states, in a heap
    with the given states, after the given calls, with the given allocator. *)
Definition StateStorage_new {St} (heap0 : gmap handle St) (trace0 : list event)
    (samplers0 : nat) (grants0 : Z -> bool) : state St :=
  mkState [] [] heap0 trace0 samplers0 grants0.

(** [StateStorage::~StateStorage] *)
Definition StateStorage_delete {St} : M St unit := clear.

(** The files [std::ifstream] and [std::ofstream] open: the content of the
    files that exist, and the names that cannot be opened for writing. *)
Record filesystem := mkFilesystem {
  files : gmap string (list byte);
  unwritable : gset string
}.

(** [std::ifstream in(filename, std::ios::binary)]: a file that cannot be
    opened leaves the stream with [failbit]. *)
Definition ifstream (fs : filesystem) (filename : string) : istream :=
  match files fs !! filename with
  | Some bs => istream_of bs
  | None => mkIstream [] false true false false
  end.

(** [std::ofstream out(filename, std::ios::binary)]: the file is created or
    emptied. *)
Definition ofstream (fs : filesystem) (filename : string) : ostream :=
  if decide (filename ∈ unwritable fs)
  then mkOstream [] false
  else mkOstream [] true.

(** The files after [out.close()]. *)
Definition close (fs : filesystem) (filename : string) (out : ostream)
  : filesystem :=
  if out_good out
  then mkFilesystem (<[filename := out_bytes out]> (files fs)) (unwritable fs)
  else fs.

Section Files.

Context {St Rng : Type}.
Variable space_ : StateSpace St Rng.

(** [StateStorage::load(const char *filename)] *)
Definition load_file (fs : filesystem) (filename : string) : M St unit :=
  load space_ (ifstream fs filename) ;;; ret tt.

(** [StateStorage::store(const char *filename)] *)
Definition store_file (fs : filesystem) (filename : string) : M St filesystem :=
  out <- store space_ (ofstream fs filename) ;;
  ret (close fs filename out).

End Files.

(** ** Vocabulary of the further statements *)

(** The records of a payload: the bytes of a state, then its metadata. *)
Definition payload_bytes (records : list (list byte * list byte)) : list byte :=
  concat (map (fun r => fst r ++ snd r) records).

(** The heap without the states of a collection. *)
Definition released {St} (hs : list handle) (m : gmap handle St) : gmap handle St :=
  foldl (fun m h => delete h m) m hs.

(** ** Further examples *)

(** A printer of [int] states: the low byte of the value. *)
Definition print_low_byte (st : Z) : list byte := [byte.of_Z st].

(** A file system with one archive of [IntSpace] and one name that cannot
    be written. *)
Definition example_files : filesystem :=
  mkFilesystem {[ "states.ompl"%string := two_state_bytes ]}
               {[ "readonly.ompl"%string ]}.

(** Two records for [IntSpace] with 3 bytes of metadata each. *)
Definition tagged_records : list (list byte * list byte) :=
  [(object_bytes sizeof_int 5, [Byte.x01; Byte.x02; Byte.x03]);
   (object_bytes sizeof_int (-3), [Byte.x04; Byte.x05; Byte.x06])].

(** An archive for [IntSpace] with these records. *)
Definition tagged_bytes : list byte :=
  header_bytes (computeSignature IntSpace) 2 3 ++ payload_bytes tagged_records.

(** An archive that holds the handle of a state that is not allocated. *)
Definition dangling_archive : state Z :=
  mkState [3%positive] [] ∅ [] 0 address_space.

(** * Properties *)

(** ** Object representations *)

Lemma length_object_bytes n z : length (object_bytes n z) = n.
Proof. apply length_le_split. Qed.

Lemma unsigned_of_object_bytes n z :
  unsigned_of_bytes (object_bytes n z) = z mod 2 ^ (Z.of_nat n * 8).
Proof. apply le_combine_split. Qed.

Lemma int_of_object_bytes z :
  is_int z -> int_of_bytes (object_bytes sizeof_int z) = z.
Proof.
  unfold is_int, INT_MIN, INT_MAX, int_of_bytes, object_bytes, sizeof_int.
  intros Hz. rewrite le_combine_split.
  change (2 ^ (Z.of_nat 4 * 8)) with (2 ^ 32).
  destruct (Z.ltb_spec (z mod 2 ^ 32) (2 ^ 31)) as [Hlt | Hge].
  - destruct (Z.lt_ge_cases z 0) as [Hneg | Hpos].
    + assert (z mod 2 ^ 32 = z + 2 ^ 32); [|lia].
      symmetry. apply (Z.mod_unique_pos _ _ (-1)); lia.
    + apply Z.mod_small; lia.
  - destruct (Z.lt_ge_cases z 0) as [Hneg | Hpos].
    + assert (z mod 2 ^ 32 = z + 2 ^ 32); [|lia].
      symmetry. apply (Z.mod_unique_pos _ _ (-1)); lia.
    + rewrite Z.mod_small in Hge; lia.
Qed.

Lemma size_t_of_object_bytes z :
  unsigned_of_bytes (object_bytes sizeof_size_t z) = wrap_size_t z.
Proof. apply unsigned_of_object_bytes. Qed.

Lemma wrap_size_t_small z : 0 <= z <= SIZE_MAX -> wrap_size_t z = z.
Proof. unfold SIZE_MAX, wrap_size_t. intros Hz. apply Z.mod_small. lia. Qed.

(** ** Streams *)

Lemma good_advance n s : good (advance n s) = good s.
Proof. reflexivity. Qed.

Lemma good_exhaust s : good (exhaust s) = false.
Proof.
  unfold exhaust, good. destruct (io_error s); simpl;
    rewrite ?orb_true_r; reflexivity.
Qed.

Lemma fail_exhaust s : fail (exhaust s) = true.
Proof.
  unfold exhaust, fail. destruct (io_error s); simpl;
    rewrite ?orb_true_r; reflexivity.
Qed.

Lemma good_set_failbit s : good (set_failbit s) = false.
Proof. unfold good; simpl. rewrite orb_true_r. reflexivity. Qed.

Lemma good_not_fail s : good s = true -> fail s = false.
Proof.
  unfold good, fail. destruct (eofbit s), (failbit s), (badbit s); simpl;
    congruence.
Qed.

Lemma read_enough n dst s :
  good s = true -> (n <= length (in_bytes s))%nat ->
  read n dst s = (take n (in_bytes s), advance n s).
Proof.
  intros Hg Hn. unfold read. rewrite Hg.
  destruct (Nat.leb_spec n (length (in_bytes s))); [reflexivity | lia].
Qed.

Lemma read_short n dst s :
  good s = true -> (length (in_bytes s) < n)%nat ->
  read n dst s = (in_bytes s ++ drop (length (in_bytes s)) dst, exhaust s).
Proof.
  intros Hg Hn. unfold read. rewrite Hg.
  destruct (Nat.leb_spec n (length (in_bytes s))); [lia | reflexivity].
Qed.

Lemma read_good_inv n dst s :
  good (snd (read n dst s)) = true ->
  good s = true /\ (n <= length (in_bytes s))%nat
  /\ read n dst s = (take n (in_bytes s), advance n s).
Proof.
  unfold read. destruct (good s) eqn:Hg.
  - destruct (Nat.leb_spec n (length (in_bytes s))); simpl.
    + auto.
    + rewrite good_exhaust. discriminate.
  - simpl. rewrite good_set_failbit. discriminate.
Qed.

Lemma read_app n dst s bs rest :
  good s = true -> in_bytes s = bs ++ rest -> length bs = n ->
  read n dst s = (bs, advance n s) /\ in_bytes (advance n s) = rest.
Proof.
  intros Hg Hb Hn. rewrite read_enough; trivial.
  - simpl. rewrite Hb. subst n. rewrite take_app_length, drop_app_length. auto.
  - rewrite Hb, length_app. lia.
Qed.

(** ** The monad *)

Section Facts.
Context {St Rng : Type}.
Implicit Types (sp : StateSpace St Rng) (σ : state St).

Lemma bind_Defined {A B} (m : M St A) (k : A -> M St B) σ r :
  bind m k σ = Defined r <->
  exists a σ', m σ = Defined (a, σ') /\ k a σ' = Defined r.
Proof.
  unfold bind. destruct (m σ) as [[a σ']|]; split.
  - eauto.
  - intros (a' & σ'' & Heq & Hk). congruence.
  - discriminate.
  - intros (a' & σ'' & Heq & Hk). discriminate.
Qed.

Lemma vector_eq_true (a b : list Z) : vector_eq a b = true <-> a = b.
Proof.
  unfold vector_eq. revert b.
  induction a as [|x a IH]; intros [|y b]; simpl; split; try done.
  - intros [Hl [Hxy Hf]%andb_prop]%andb_prop.
    apply Z.eqb_eq in Hxy. f_equal; trivial.
    apply IH. rewrite Hl. assumption.
  - intros [= -> ->]. rewrite Z.eqb_refl. simpl.
    apply IH. reflexivity.
Qed.

End Facts.

Section Collection.
Context {St Rng : Type}.
Implicit Types (sp : StateSpace St Rng) (σ : state St).

Lemma fresh_not_in_heap σ : heap σ !! fresh (dom (heap σ)) = None.
Proof. apply not_elem_of_dom, is_fresh. Qed.

Lemma alloc_put_add sp σ (st : St) {B} (k : M St B) :
  (s <- allocState sp ;; put_state s st ;;; addState s ;;; k) σ
  = k (with_new_state σ st).
Proof.
  unfold bind, allocState, put_state, addState, bind, get_states, set_states,
    with_new_state; simpl.
  rewrite lookup_insert_eq; simpl. rewrite insert_insert_eq. reflexivity.
Qed.

Lemma generateSamples_loop_spec sp n : forall ss σ,
  exists σ' new,
    generateSamples_loop sp n ss σ = Defined (tt, σ')
    /\ states_ σ' = states_ σ ++ new
    /\ length new = n
    /\ Forall2 (fun h v => heap σ' !! h = Some v) new (samples sp n ss)
    /\ (forall h st, heap σ !! h = Some st -> heap σ' !! h = Some st)
    /\ msg_ σ' = msg_ σ
    /\ trace σ' = trace σ ++ map EvAlloc new.
Proof.
  induction n as [|n IH]; intros ss σ.
  - exists σ, []. simpl. rewrite !app_nil_r. repeat split; auto.
  - cbn [generateSamples_loop]. rewrite alloc_put_add.
    set (v := fst (sampleUniform sp ss)).
    destruct (IH (snd (sampleUniform sp ss)) (with_new_state σ v))
      as (σ' & new & Hrun & Hst & Hlen & Hval & Hold & Hmsg & Htr).
    exists σ', (fresh (dom (heap σ)) :: new).
    split; [exact Hrun|]. simpl in *.
    rewrite Hst, Htr, <- !app_assoc. simpl.
    repeat split; auto.
    + constructor; [|exact Hval].
      apply Hold. apply lookup_insert_eq.
    + intros h st Hh. apply Hold.
      rewrite lookup_insert_ne; [exact Hh|].
      intros <-. rewrite fresh_not_in_heap in Hh. discriminate.
Qed.

(** C9. [generateSamples(k)] on a collection of [n] states leaves [n + k]
    states: the [n] states it had, followed by [k] new states that hold the
    first [k] draws, in order, of the sampler it allocated from the state
    space; the states that existed keep their values. *)
Theorem generateSamples_appends sp count σ :
  0 <= count <= UINT_MAX ->
  exists σ' new,
    generateSamples sp count σ = Defined (tt, σ')
    /\ states_ σ' = states_ σ ++ new
    /\ Z.of_nat (length new) = count
    /\ Z.of_nat (length (states_ σ')) = Z.of_nat (length (states_ σ)) + count
    /\ Forall2 (fun h v => heap σ' !! h = Some v) new
         (samples sp (Z.to_nat count) (allocStateSampler_rng sp (samplers σ)))
    /\ (forall h st, heap σ !! h = Some st -> heap σ' !! h = Some st).
Proof.
  intros Hcount. unfold generateSamples, bind, allocStateSampler.
  destruct (generateSamples_loop_spec sp (Z.to_nat count)
              (allocStateSampler_rng sp (samplers σ))
              (mkState (states_ σ) (msg_ σ) (heap σ) (trace σ) (S (samplers σ))
                       (malloc_grants σ)))
    as (σ' & new & Hrun & Hst & Hlen & Hval & Hold & _).
  exists σ', new. simpl in *.
  split; [exact Hrun|]. rewrite Hst, length_app.
  repeat split; auto; lia.
Qed.

(** C4. The allocator obtained from an archive, called on a state space
    whose signature differs from the one bound when the allocator was made,
    throws and returns no sampler; called on a state space with an equal
    signature it returns the sampler over the archive's collection. *)
Theorem allocator_checks_signature sp (space : StateSpace St Rng) σ0 σ0' f σ :
  getStateSamplerAllocator sp σ0 = Defined (f, σ0') ->
  (computeSignature space <> computeSignature sp ->
   exists e, call_allocator f space σ = Defined (inl e, σ))
  /\ (computeSignature space = computeSignature sp ->
      call_allocator f space σ
      = Defined (inr (mkPrecomputedStateSampler space (states_ σ)), σ)).
Proof.
  unfold getStateSamplerAllocator, ret. intros [= <- <-].
  unfold call_allocator, bind, get_states, ret, allocPrecomputedStateSampler.
  simpl. split; intros Hsig.
  - destruct (vector_eq _ _) eqn:Heq.
    + apply vector_eq_true in Heq. contradiction.
    + simpl. eauto.
  - apply vector_eq_true in Hsig. rewrite Hsig. reflexivity.
Qed.

(** C10. Once the marker has matched, [loadHeader] reads [sig[0]] whatever
    the state of the stream: for a state space whose signature is empty the
    outcome is undefined exactly when the stream is readable and starts with
    the marker, and for a signature with a first element the read of
    [sig[0]] is defined. *)
Theorem loadHeader_signature_0 sp in_ σ :
  (computeSignature sp = [] ->
   (loadHeader sp in_ σ = Undefined <->
    good in_ = true /\ eof in_ = false
    /\ unsigned_of_bytes
         (fst (read sizeof_uint32_t (object_bytes sizeof_uint32_t 0) in_))
       = OMPL_ARCHIVE_MARKER))
  /\ (forall e sig, computeSignature sp = e :: sig ->
      vector_at (computeSignature sp) 0 σ = Defined (e, σ)).
Proof.
  split.
  - intros Hsig. unfold loadHeader.
    destruct (good in_) eqn:Hg; simpl.
    2:{ unfold bind, msg, ret. simpl. split; [discriminate | intros [? _]; discriminate]. }
    destruct (eof in_) eqn:He; simpl.
    { unfold bind, msg, ret. simpl. split; [discriminate | intros (_ & ? & _); discriminate]. }
    destruct (Z.eqb_spec
      (unsigned_of_bytes (fst (read sizeof_uint32_t (object_bytes sizeof_uint32_t 0) in_)))
      OMPL_ARCHIVE_MARKER) as [Hm | Hm]; simpl.
    + unfold bind at 1. unfold loadHeader_signature. rewrite Hsig.
      split; [auto | reflexivity].
    + unfold bind, msg, ret. simpl. split; [discriminate | intros (_ & _ & ?); contradiction].
  - intros e sig ->. reflexivity.
Qed.

End Collection.

Lemma first_mismatch_None a b :
  length a = length b -> first_mismatch a b = None <-> a = b.
Proof.
  revert b. induction a as [|x a IH]; intros [|y b] Hlen; simpl in *;
    try discriminate; [done|].
  destruct (Z.eqb_spec x y) as [-> | Hxy].
  - destruct (first_mismatch a b) eqn:Hfm; cbn.
    + split; [discriminate|]. intros [= Hab].
      apply IH in Hab; [congruence | lia].
    + split; [|done]. intros _. f_equal. apply IH; [lia | done].
  - split; [discriminate | congruence].
Qed.

Lemma signature_ok_cons sig :
  signature_ok sig ->
  exists body, sig = Z.of_nat (length body) :: body /\ Forall is_int body.
Proof.
  intros [Hint Hlen]. destruct sig as [|e body]; [discriminate|].
  simpl in Hlen. injection Hlen as ->. exists body. split.
  - f_equal. lia.
  - inversion Hint; assumption.
Qed.

Lemma first_mismatch_signature a b :
  signature_ok a -> signature_ok b -> first_mismatch a b = None <-> a = b.
Proof.
  intros (ba & -> & _)%signature_ok_cons (bb & -> & _)%signature_ok_cons.
  simpl. destruct (Z.eqb_spec (Z.of_nat (length ba)) (Z.of_nat (length bb)))
    as [Hl | Hl].
  - assert (Hlen : length ba = length bb) by lia. rewrite Hlen.
    pose proof (first_mismatch_None (Z.of_nat (length bb) :: ba)
                  (Z.of_nat (length bb) :: bb)) as Hfm.
    simpl in Hfm. rewrite Z.eqb_refl in Hfm. apply Hfm. lia.
  - split; [discriminate | congruence].
Qed.

Lemma length_vector_bytes v : length (vector_bytes v) = (4 * length v)%nat.
Proof.
  induction v as [|x v IH]; [reflexivity|].
  change (vector_bytes (x :: v))
    with (object_bytes sizeof_int x ++ vector_bytes v).
  rewrite length_app, IH, length_object_bytes. unfold sizeof_int. simpl. lia.
Qed.

Lemma advance_0 s : advance 0 s = s.
Proof. destruct s; reflexivity. Qed.

Lemma advance_advance n m s : advance n (advance m s) = advance (m + n) s.
Proof. unfold advance; simpl. rewrite drop_drop. reflexivity. Qed.

Section HeaderFacts.
Context {St Rng : Type}.
Implicit Types (sp : StateSpace St Rng) (σ : state St).

Local Abbreviation mismatch := "State space signatures do not match"%string.

Lemma vector_at_0 {A} (e : A) v σ : vector_at (e :: v) 0 σ = Defined (e, σ).
Proof. reflexivity. Qed.

(** The loop over the stored elements [rs], met by the elements [rl] of the
    live signature from index [i + 1] on. *)
Lemma loadHeader_loop_spec (sig : list Z) rest : forall rs i rl s σ,
  drop (S i) sig = rl -> length rl = length rs -> Forall is_int rs ->
  good s = true -> in_bytes s = vector_bytes rs ++ rest ->
  loadHeader_loop sig (length rs) (Z.of_nat i) s σ
  = match first_mismatch rs rl with
    | None => Defined ((true, advance (4 * length rs) s), σ)
    | Some k => Defined ((false, advance (4 * S k) s), logged Error mismatch σ)
    end.
Proof.
  induction rs as [|x rs IH]; intros i rl s σ Hdrop Hlen Hint Hg Hb.
  - destruct rl; [|discriminate]. simpl. rewrite advance_0. reflexivity.
  - destruct rl as [|y rl]; [discriminate|].
    inversion Hint as [|? ? Hx Hrs]; subst.
    cbn [loadHeader_loop length]. rewrite Hg.
    change (vector_bytes (x :: rs))
      with (object_bytes sizeof_int x ++ vector_bytes rs) in Hb.
    rewrite <- app_assoc in Hb.
    destruct (read_app sizeof_int (object_bytes sizeof_int 0) s _ _ Hg Hb
                (length_object_bytes _ _)) as [Hread Hb'].
    rewrite Hread. cbn [fst snd]. rewrite (int_of_object_bytes x Hx).
    assert (Hy : sig !! S i = Some y).
    { rewrite <- (Nat.add_0_r (S i)), <- lookup_drop, Hdrop. reflexivity. }
    unfold bind at 1, vector_at.
    replace (0 <=? Z.of_nat i + 1) with true by (symmetry; apply Z.leb_le; lia).
    replace (Z.to_nat (Z.of_nat i + 1)) with (S i) by lia.
    rewrite Hy. cbn [lift ret first_mismatch].
    destruct (Z.eqb_spec x y) as [-> | Hxy]; cbn [negb].
    + replace (Z.of_nat i + 1) with (Z.of_nat (S i)) by lia.
      rewrite (IH (S i) rl (advance sizeof_int s) σ); trivial.
      * destruct (first_mismatch rs rl); cbn [fmap option_fmap option_map];
          rewrite advance_advance; do 4 f_equal; unfold sizeof_int; lia.
      * replace (S (S i)) with (S i + 1)%nat by lia.
        rewrite <- drop_drop, Hdrop. reflexivity.
      * simpl in Hlen. lia.
    + reflexivity.
Qed.

(** The check of the signature on a stream that holds the elements of the
    signature [stored]. *)
Lemma loadHeader_signature_spec sp stored rest s σ :
  signature_ok (computeSignature sp) -> signature_ok stored ->
  good s = true -> in_bytes s = vector_bytes stored ++ rest ->
  loadHeader_signature sp s σ
  = match first_mismatch stored (computeSignature sp) with
    | None => Defined ((true, advance (4 * length stored) s), σ)
    | Some k => Defined ((false, advance (4 * S k) s), logged Error mismatch σ)
    end.
Proof.
  intros Hlive Hstored Hg Hb.
  destruct (signature_ok_cons _ Hlive) as (bl & Hl & _).
  destruct (signature_ok_cons _ Hstored) as (bs & -> & Hbs).
  destruct Hstored as [Hints _]. inversion Hints as [|? ? Hn _]; subst.
  unfold loadHeader_signature. rewrite Hg.
  change (vector_bytes (Z.of_nat (length bs) :: bs))
    with (object_bytes sizeof_int (Z.of_nat (length bs)) ++ vector_bytes bs) in Hb.
  rewrite <- app_assoc in Hb.
  destruct (read_app sizeof_int (object_bytes sizeof_int 0) s _ _ Hg Hb
              (length_object_bytes _ _)) as [Hread Hb'].
  rewrite Hread. cbn [fst snd]. rewrite (int_of_object_bytes _ Hn).
  rewrite Hl. unfold bind at 1. rewrite vector_at_0. cbn [first_mismatch].
  rewrite (Z.eqb_sym (Z.of_nat (length bs))).
  destruct (Z.eqb_spec (Z.of_nat (length bl)) (Z.of_nat (length bs))) as [Hlen | Hlen];
    cbn [negb].
  - rewrite Nat2Z.id.
    pose proof (loadHeader_loop_spec (Z.of_nat (length bl) :: bl) rest bs 0 bl
                  (advance sizeof_int s) σ) as Hloop.
    change (Z.of_nat 0) with 0 in Hloop. rewrite Hloop; trivial.
    + destruct (first_mismatch bs bl); cbn [fmap option_fmap option_map];
        rewrite advance_advance; do 4 f_equal; unfold sizeof_int; simpl length; lia.
    + lia.
  - reflexivity.
Qed.

End HeaderFacts.

Section LoadFacts.
Context {St Rng : Type}.
Implicit Types (sp : StateSpace St Rng) (σ : state St).

Lemma clear_loop_spec hs : forall σ,
  NoDup hs -> (forall h, h ∈ hs -> is_Some (heap σ !! h)) ->
  clear_loop hs σ
  = Defined (tt, mkState (states_ σ) (msg_ σ)
                         (foldl (fun m h => delete h m) (heap σ) hs)
                         (trace σ ++ map EvFree hs) (samplers σ)
                         (malloc_grants σ)).
Proof.
  induction hs as [|h hs IH]; intros σ Hnd Hin.
  - simpl. rewrite app_nil_r. destruct σ; reflexivity.
  - inversion Hnd as [|? ? Hh Hnd']; subst.
    cbn [clear_loop]. unfold bind, freeState.
    destruct (Hin h) as [st Hst]; [left|]. rewrite Hst.
    rewrite IH; trivial.
    + simpl. rewrite <- app_assoc. reflexivity.
    + intros h' Hh'. simpl. rewrite lookup_delete_ne.
      * apply Hin. right. exact Hh'.
      * intros ->. contradiction.
Qed.

Lemma clear_spec σ : archive_ok σ -> clear σ = Defined (tt, cleared σ).
Proof.
  intros [Hnd Hin]. unfold clear, bind, get_states.
  rewrite clear_loop_spec; trivial.
Qed.

Lemma clear_loop_inv hs : forall σ u σ',
  clear_loop hs σ = Defined (u, σ') ->
  states_ σ' = states_ σ /\ msg_ σ' = msg_ σ
  /\ trace σ' = trace σ ++ map EvFree hs.
Proof.
  induction hs as [|h hs IH]; intros σ u σ' Hrun.
  - injection Hrun as _ <-. simpl. rewrite app_nil_r. auto.
  - cbn [clear_loop] in Hrun. apply bind_Defined in Hrun as (u' & σ1 & Hfree & Hrun).
    unfold freeState in Hfree. destruct (heap σ !! h); [|discriminate].
    injection Hfree as _ <-. apply IH in Hrun as (-> & -> & ->). simpl.
    rewrite <- app_assoc. auto.
Qed.

Lemma clear_inv σ u σ' :
  clear σ = Defined (u, σ') ->
  states_ σ' = [] /\ msg_ σ' = msg_ σ
  /\ trace σ' = trace σ ++ map EvFree (states_ σ).
Proof.
  unfold clear, get_states. unfold bind at 1. intros Hrun.
  apply bind_Defined in Hrun as (u' & σ1 & Hloop & Hset).
  apply clear_loop_inv in Hloop as (_ & Hm & Ht).
  injection Hset as _ <-. simpl. auto.
Qed.

Lemma clear_loop_malloc_grants hs : forall σ u σ',
  clear_loop hs σ = Defined (u, σ') -> malloc_grants σ' = malloc_grants σ.
Proof.
  induction hs as [|h hs IH]; intros σ u σ' Hrun.
  - injection Hrun as _ <-. reflexivity.
  - cbn [clear_loop] in Hrun. apply bind_Defined in Hrun as (u' & σ1 & Hfree & Hrun).
    unfold freeState in Hfree. destruct (heap σ !! h); [|discriminate].
    injection Hfree as _ <-. exact (IH _ _ _ Hrun).
Qed.

Lemma clear_malloc_grants σ u σ' :
  clear σ = Defined (u, σ') -> malloc_grants σ' = malloc_grants σ.
Proof.
  unfold clear, get_states. unfold bind at 1. intros Hrun.
  apply bind_Defined in Hrun as (u' & σ1 & Hloop & Hset).
  apply clear_loop_malloc_grants in Hloop. injection Hset as _ <-. exact Hloop.
Qed.

(** The size fields of a complete header. *)
Lemma loadHeader_counts_spec count size rest s σ :
  good s = true ->
  in_bytes s = object_bytes sizeof_size_t count
               ++ object_bytes sizeof_size_t size ++ rest ->
  loadHeader_counts s σ
  = Defined ((Some (mkHeader (wrap_size_t count) (wrap_size_t size)),
              advance 16 s), σ)
    /\ in_bytes (advance 16 s) = rest.
Proof.
  intros Hg Hb. unfold loadHeader_counts. rewrite Hg.
  destruct (read_app sizeof_size_t (object_bytes sizeof_size_t 0) s _ _ Hg Hb
              (length_object_bytes _ _)) as [Hr1 Hb1].
  rewrite Hr1. cbn [fst snd]. rewrite good_advance, Hg.
  destruct (read_app sizeof_size_t (object_bytes sizeof_size_t 0)
              (advance sizeof_size_t s) _ _ Hg Hb1
              (length_object_bytes _ _)) as [Hr2 Hb2].
  rewrite Hr2. cbn [fst snd]. rewrite !good_advance, Hg.
  rewrite !size_t_of_object_bytes.
  rewrite andb_false_r, advance_advance in *. auto.
Qed.

(** [loadHeader] on a readable stream that starts with the marker. *)
Lemma loadHeader_marker sp rest s σ :
  good s = true ->
  in_bytes s = object_bytes sizeof_uint32_t OMPL_ARCHIVE_MARKER ++ rest ->
  loadHeader sp s σ
  = (c <- loadHeader_signature sp (advance 4 s) ;;
     if negb (fst c) then ret (None, snd c) else loadHeader_counts (snd c)) σ
    /\ in_bytes (advance 4 s) = rest.
Proof.
  intros Hg Hb. unfold loadHeader.
  assert (He : eof s = false).
  { unfold good in Hg. unfold eof. destruct (eofbit s); [discriminate | reflexivity]. }
  rewrite Hg, He. cbn [negb orb].
  destruct (read_app sizeof_uint32_t (object_bytes sizeof_uint32_t 0) s _ _ Hg Hb
              (length_object_bytes _ _)) as [Hr Hb'].
  rewrite Hr. cbn [fst snd]. rewrite unsigned_of_object_bytes.
  split; [reflexivity | exact Hb'].
Qed.

(** [loadHeader] on a stream that holds a complete header written for the
    signature [stored]. *)
Lemma loadHeader_spec sp stored count size rest s σ :
  signature_ok (computeSignature sp) -> signature_ok stored ->
  good s = true -> in_bytes s = header_bytes stored count size ++ rest ->
  loadHeader sp s σ
  = match first_mismatch stored (computeSignature sp) with
    | None =>
        Defined ((Some (mkHeader (wrap_size_t count) (wrap_size_t size)),
                  advance (length (header_bytes stored count size)) s), σ)
    | Some k =>
        Defined ((None, advance (4 + 4 * S k) s),
                 logged Error "State space signatures do not match" σ)
    end.
Proof.
  intros Hlive Hstored Hg Hb. unfold header_bytes in Hb.
  rewrite <- !app_assoc in Hb.
  destruct (loadHeader_marker sp _ s σ Hg Hb) as [-> Hb1].
  unfold bind at 1.
  rewrite (loadHeader_signature_spec sp stored _ (advance 4 s) σ Hlive Hstored
             (eq_trans (good_advance _ _) Hg) Hb1).
  destruct (first_mismatch stored (computeSignature sp)) as [k|]; cbn [fst snd negb].
  - unfold ret. rewrite advance_advance. reflexivity.
  - assert (Hb2 : in_bytes (advance (4 * length stored) (advance 4 s))
                  = object_bytes sizeof_size_t count
                    ++ object_bytes sizeof_size_t size ++ rest).
    { unfold advance at 1. cbn [in_bytes].
      rewrite Hb1, <- length_vector_bytes. apply drop_app_length. }
    destruct (loadHeader_counts_spec count size rest _ σ
                (eq_trans (good_advance _ _) (eq_trans (good_advance _ _) Hg)) Hb2)
      as [-> _].
    rewrite !advance_advance. do 4 f_equal.
    unfold header_bytes. rewrite !length_app, !length_object_bytes,
      length_vector_bytes. unfold sizeof_uint32_t, sizeof_size_t. lia.
Qed.

End LoadFacts.

Lemma first_mismatch_Some a b k :
  first_mismatch a b = Some k ->
  (k < length a)%nat /\ a !! k <> b !! k
  /\ forall j, (j < k)%nat -> a !! j = b !! j.
Proof.
  revert b k. induction a as [|x a IH]; intros [|y b] k; simpl; try discriminate.
  destruct (Z.eqb_spec x y) as [-> | Hxy].
  - destruct (first_mismatch a b) as [k'|] eqn:Hfm; [|discriminate].
    cbn. intros [= <-]. destruct (IH b k' Hfm) as (Hlt & Hne & Heq).
    split; [lia|]. split; [exact Hne|].
    intros [|j] Hj; [reflexivity|]. apply Heq. lia.
  - intros [= <-]. split; [lia|]. split; [simpl; congruence|]. lia.
Qed.

Section StoreFacts.
Context {St Rng : Type}.
Implicit Types (sp : StateSpace St Rng) (σ : state St).

Lemma store_loop_inv sp l hs : forall i buffer σ b σ',
  store_loop sp l hs i buffer σ = Defined (b, σ') -> σ' = σ.
Proof.
  induction hs as [|h hs IH]; intros i buffer σ b σ' Hrun.
  - injection Hrun as _ <-. reflexivity.
  - cbn [store_loop] in Hrun.
    apply bind_Defined in Hrun as (st & σ1 & Hget & Hrun).
    apply bind_Defined in Hrun as (b1 & σ2 & Hpoke & Hrun).
    unfold get_state in Hget. destruct (heap σ !! h); [|discriminate].
    injection Hget as _ <-.
    unfold lift in Hpoke. destruct (poke _ _ _); [|discriminate].
    injection Hpoke as _ <-. eapply IH, Hrun.
Qed.

(** What a defined [store] on a writable stream has written. *)
Lemma store_inv sp out σ out' σ' :
  out_good out = true -> store sp out σ = Defined (out', σ') ->
  exists payload,
    out_bytes out'
    = out_bytes out
      ++ header_bytes (computeSignature sp) (Z.of_nat (length (states_ σ))) 0
      ++ payload
    /\ σ' = logged Debug "Serializing %u states" σ.
Proof.
  intros Hg. unfold store. rewrite Hg. cbn [negb]. intros Hrun.
  apply bind_Defined in Hrun as (e & σ1 & Hat & Hrun).
  assert (σ1 = σ) as ->.
  { unfold vector_at, lift in Hat. cbn [Z.leb Z.compare] in Hat.
    destruct (computeSignature sp !! Z.to_nat 0); [|discriminate].
    injection Hat as _ <-. reflexivity. }
  unfold bind at 1, get_states in Hrun. unfold bind at 1, msg in Hrun.
  apply bind_Defined in Hrun as (buffer & σ2 & Hloop & Hret).
  apply store_loop_inv in Hloop as ->. injection Hret as <- <-.
  exists buffer. split; [|reflexivity].
  unfold write. cbn [out_good out_bytes]. rewrite Hg. cbn [out_good out_bytes].
  unfold header_bytes. rewrite <- !app_assoc. reflexivity.
Qed.

Lemma written_store sp out σ out' σ' :
  out_good out = true -> store sp out σ = Defined (out', σ') ->
  exists payload,
    written out out'
    = header_bytes (computeSignature sp) (Z.of_nat (length (states_ σ))) 0
      ++ payload.
Proof.
  intros Hg Hrun. destruct (store_inv sp out σ out' σ' Hg Hrun) as (p & Hb & _).
  exists p. unfold written. rewrite Hb. apply drop_app_length.
Qed.


(** C3. Loading an archive that [store] wrote for a state space whose
    signature differs from the signature of the live state space reports
    the mismatch of the signatures and leaves no state in the archive: no
    state is allocated, and the stream is consumed up to the first element
    of the stored signature that differs and no further, so that nothing
    after the signature is read. *)
Theorem load_signature_mismatch (spA spB : StateSpace St Rng) σA out out' σA' σ :
  signature_ok (computeSignature spA) -> signature_ok (computeSignature spB) ->
  computeSignature spA <> computeSignature spB ->
  out_good out = true -> store spA out σA = Defined (out', σA') ->
  archive_ok σ ->
  exists k in' σ',
    load spB (istream_of (written out out')) σ = Defined (in', σ')
    /\ states_ σ' = []
    /\ msg_ σ' = msg_ σ ++ [Msg Error "State space signatures do not match"]
    /\ trace σ' = trace σ ++ map EvFree (states_ σ)
    /\ first_mismatch (computeSignature spA) (computeSignature spB) = Some k
    /\ (k < length (computeSignature spA))%nat
    /\ in_bytes in' = drop (4 + 4 * S k) (written out out').
Proof.
  intros HA HB Hne Hg Hstore Hok.
  destruct (written_store spA out σA out' σA' Hg Hstore) as (payload & Hw).
  destruct (first_mismatch (computeSignature spA) (computeSignature spB))
    as [k|] eqn:Hfm.
  2:{ apply (first_mismatch_signature _ _ HA HB) in Hfm. contradiction. }
  destruct (first_mismatch_Some _ _ _ Hfm) as (Hk & _).
  exists k. eexists _, _.
  unfold load. unfold bind at 1. rewrite (clear_spec σ Hok).
  unfold bind at 1.
  rewrite (loadHeader_spec spB (computeSignature spA)
             (Z.of_nat (length (states_ σA))) 0 payload
             (istream_of (written out out')) (cleared σ)); trivial.
  rewrite Hfm. cbn [fst snd ret]. repeat split; auto.
Qed.

End StoreFacts.

Lemma unsigned_of_bytes_range bs :
  (length bs <= 8)%nat -> 0 <= unsigned_of_bytes bs <= SIZE_MAX.
Proof.
  intros Hlen. unfold unsigned_of_bytes, SIZE_MAX.
  pose proof (le_combine_bound bs) as Hb.
  assert (2 ^ (8 * Z.of_nat (length bs)) <= 2 ^ 64).
  { apply Z.pow_le_mono_r; lia. }
  lia.
Qed.

Lemma length_read n dst s : length dst = n -> length (fst (read n dst s)) = n.
Proof.
  intros Hd. unfold read. destruct (good s); [|exact Hd].
  destruct (Nat.leb_spec n (length (in_bytes s))); cbn [fst].
  - rewrite length_take. lia.
  - rewrite length_app, length_drop. lia.
Qed.

Lemma first_mismatch_refl a : first_mismatch a a = None.
Proof.
  induction a as [|x a IH]; [reflexivity|]. simpl.
  rewrite Z.eqb_refl, IH. reflexivity.
Qed.

Section Truncation.
Context {St Rng : Type}.
Implicit Types (sp : StateSpace St Rng) (σ : state St).

(** A loop that ends with [true] on a readable stream has read all its
    elements and reported nothing. *)
Lemma loadHeader_loop_true (sig : list Z) n : forall i s σ s' σ',
  loadHeader_loop sig n i s σ = Defined ((true, s'), σ') ->
  σ' = σ
  /\ (good s' = true -> s' = advance (4 * n) s /\ (4 * n <= length (in_bytes s))%nat).
Proof.
  induction n as [|n IH]; intros i s σ s' σ' Hrun.
  - injection Hrun as <- <-. rewrite advance_0. split; [reflexivity|].
    intros _. split; [reflexivity | lia].
  - cbn [loadHeader_loop] in Hrun. destruct (good s) eqn:Hg.
    2:{ injection Hrun as <- <-. split; [reflexivity | congruence]. }
    apply bind_Defined in Hrun as (e & σ1 & Hat & Hrun).
    assert (σ1 = σ) as ->.
    { unfold vector_at in Hat. destruct (0 <=? i + 1); [|discriminate].
      unfold lift in Hat. destruct (sig !! _); [|discriminate].
      injection Hat as _ <-. reflexivity. }
    destruct (negb _); [discriminate|].
    apply IH in Hrun as [-> Hgood]. split; [reflexivity|].
    intros Hg'. destruct (Hgood Hg') as [-> Hlen].
    rewrite good_advance in Hg'.
    apply read_good_inv in Hg' as (_ & Hlen4 & Hread).
    rewrite Hread in *. cbn [snd] in *. rewrite advance_advance.
    unfold sizeof_int in *. simpl in Hlen. rewrite length_drop in Hlen.
    split; [f_equal; lia | lia].
Qed.

(** The check of the signature is defined for a well-formed signature. *)
Lemma loadHeader_loop_defined (sig : list Z) n : forall i s σ,
  (i + n < length sig)%nat ->
  exists c σ', loadHeader_loop sig n (Z.of_nat i) s σ = Defined (c, σ')
    /\ (fst c = false ->
        σ' = logged Error "State space signatures do not match" σ).
Proof.
  induction n as [|n IH]; intros i s σ Hlen.
  - eexists _, _. split; [reflexivity | discriminate].
  - cbn [loadHeader_loop]. destruct (good s).
    2:{ eexists _, _. split; [reflexivity | discriminate]. }
    destruct (lookup_lt_is_Some_2 sig (S i)) as [e He]; [lia|].
    unfold bind at 1, vector_at.
    replace (0 <=? Z.of_nat i + 1) with true by (symmetry; apply Z.leb_le; lia).
    replace (Z.to_nat (Z.of_nat i + 1)) with (S i) by lia.
    rewrite He. cbn [lift ret]. destruct (negb _).
    + eexists _, _. split; [reflexivity | reflexivity].
    + replace (Z.of_nat i + 1) with (Z.of_nat (S i)) by lia.
      apply IH. lia.
Qed.

Lemma loadHeader_signature_defined sp s σ :
  signature_ok (computeSignature sp) ->
  exists c σ', loadHeader_signature sp s σ = Defined (c, σ')
    /\ (fst c = false ->
        σ' = logged Error "State space signatures do not match" σ)
    /\ (fst c = true -> σ' = σ
        /\ (good (snd c) = true ->
            good s = true
            /\ snd c = advance (4 * length (computeSignature sp)) s
            /\ (4 * length (computeSignature sp) <= length (in_bytes s))%nat)).
Proof.
  intros (body & Hsig & _)%signature_ok_cons.
  unfold loadHeader_signature. rewrite Hsig. unfold bind at 1.
  rewrite vector_at_0.
  set (r := if good s then read sizeof_int (object_bytes sizeof_int 0) s
            else (object_bytes sizeof_int 0, s)).
  destruct (Z.eqb_spec (Z.of_nat (length body)) (int_of_bytes (fst r)))
    as [Heq | Hne]; cbn [negb].
  2:{ eexists _, _. split; [reflexivity|]. split; [reflexivity | discriminate]. }
  rewrite <- Heq, Nat2Z.id.
  destruct (loadHeader_loop_defined (Z.of_nat (length body) :: body)
              (length body) 0 (snd r) σ) as (c & σ' & Hrun & Hfalse);
    [simpl; lia|].
  change (Z.of_nat 0) with 0 in Hrun.
  exists c, σ'. split; [exact Hrun|]. split; [exact Hfalse|].
  intros Hc. destruct c as [b s']. cbn [fst snd] in *. subst b.
  apply loadHeader_loop_true in Hrun as [-> Hgood]. split; [reflexivity|].
  intros Hg'. destruct (Hgood Hg') as [-> Hlen].
  rewrite good_advance in Hg'. subst r. destruct (good s) eqn:Hg.
  2:{ cbn [snd] in Hg'. congruence. }
  apply read_good_inv in Hg' as (_ & Hlen4 & Hread).
  rewrite Hread in *. cbn [snd] in *. rewrite advance_advance.
  unfold sizeof_int in *. simpl in Hlen. rewrite length_drop in Hlen.
  split; [reflexivity|]. simpl length. split; [f_equal; lia | lia].
Qed.

(** What a header that [loadHeader] accepts tells about the stream. *)
Lemma loadHeader_counts_Some s σ header s' σ' :
  loadHeader_counts s σ = Defined ((Some header, s'), σ') ->
  σ' = σ /\ good s = true
  /\ (8 <= length (in_bytes s))%nat
  /\ 0 <= state_count header <= SIZE_MAX
  /\ 0 <= metadata_size header <= SIZE_MAX
  /\ (0 < state_count header -> good s' = true).
Proof.
  unfold loadHeader_counts. destruct (good s) eqn:Hg; [|discriminate].
  destruct (good (snd (read _ _ s))) eqn:Hg1; [|discriminate].
  destruct (andb _ _) eqn:Hc; [discriminate|].
  intros [= <- <- <-]. cbn [state_count metadata_size].
  apply read_good_inv in Hg1 as (_ & Hlen & _).
  repeat split; trivial;
    try (apply unsigned_of_bytes_range; rewrite length_read;
         [reflexivity | apply length_object_bytes]).
  intros Hpos. apply Z.ltb_lt in Hpos. rewrite Hpos in Hc.
  cbn [andb] in Hc. apply negb_false_iff in Hc. exact Hc.
Qed.

Lemma loadHeader_Some sp s σ header s' σ' :
  loadHeader sp s σ = Defined ((Some header, s'), σ') ->
  σ' = σ
  /\ 0 <= state_count header <= SIZE_MAX
  /\ 0 <= metadata_size header <= SIZE_MAX
  /\ (0 < state_count header -> good s' = true).
Proof.
  unfold loadHeader. destruct (negb (good s) || eof s); [discriminate|].
  destruct (negb _); [discriminate|].
  intros Hrun. apply bind_Defined in Hrun as ([b s1] & σ1 & Hsig & Hrun).
  cbn [fst snd] in Hrun. destruct b; cbn [negb] in Hrun; [|discriminate].
  apply loadHeader_counts_Some in Hrun as (-> & _ & _ & Hc & Hm & Hg).
  split; [|auto].
  unfold loadHeader_signature in Hsig.
  apply bind_Defined in Hsig as (e & σ2 & Hat & Hsig).
  assert (σ2 = σ) as ->.
  { unfold vector_at, lift in Hat. cbn [Z.leb Z.compare] in Hat.
    destruct (computeSignature sp !! Z.to_nat 0); [|discriminate].
    injection Hat as _ <-. reflexivity. }
  destruct (negb _); [discriminate|].
  apply loadHeader_loop_true in Hsig as [-> _]. reflexivity.
Qed.

(** A stream that ends before the field [metadata_size] is refused, and the
    refusal is reported. *)
Lemma loadHeader_truncated sp s σ :
  signature_ok (computeSignature sp) ->
  (length (in_bytes s) < 4 + 4 * length (computeSignature sp) + 8)%nat ->
  exists s' m,
    loadHeader sp s σ
    = Defined ((None, s'), mkState (states_ σ) (msg_ σ ++ [m]) (heap σ)
                                   (trace σ) (samplers σ) (malloc_grants σ))
    /\ reported m = true.
Proof.
  intros Hok Hlen. unfold loadHeader.
  destruct (negb (good s) || eof s) eqn:Hfirst.
  { eexists _, _. split; [reflexivity | reflexivity]. }
  apply orb_false_elim in Hfirst as [Hg _]. apply negb_false_iff in Hg.
  destruct (negb _) eqn:Hmarker.
  { eexists _, _. split; [reflexivity | reflexivity]. }
  set (r0 := read sizeof_uint32_t (object_bytes sizeof_uint32_t 0) s) in *.
  destruct (loadHeader_signature_defined sp (snd r0) σ Hok)
    as ([b s1] & σ1 & Hsig & Hfalse & Htrue).
  unfold bind at 1. rewrite Hsig. cbn [fst snd] in *.
  destruct b; cbn [negb].
  2:{ rewrite (Hfalse eq_refl). eexists _, _. split; reflexivity. }
  destruct (Htrue eq_refl) as [-> Hgood]. clear Hfalse Htrue.
  unfold loadHeader_counts. destruct (good s1) eqn:Hg1.
  2:{ eexists _, _. split; reflexivity. }
  destruct (Hgood eq_refl) as (Hg0 & -> & Hlen1).
  destruct (good (snd (read sizeof_size_t _ _))) eqn:Hg2.
  2:{ eexists _, _. split; reflexivity. }
  exfalso. apply read_good_inv in Hg2 as (_ & Hlen2 & _).
  subst r0. apply read_good_inv in Hg0 as (_ & Hlen0 & Hread).
  rewrite Hread in *. cbn [snd] in *.
  unfold sizeof_uint32_t, sizeof_size_t in *. simpl in Hlen1, Hlen2.
  rewrite !length_drop in *. lia.
Qed.

(** A header for no state that is cut inside [metadata_size] is accepted,
    although the read of [metadata_size] has failed. *)
Lemma loadHeader_cut_metadata_size sp tail σ :
  signature_ok (computeSignature sp) -> (length tail < 8)%nat ->
  exists size in',
    loadHeader sp
      (istream_of (header_without_metadata_size (computeSignature sp) tail)) σ
    = Defined ((Some (mkHeader 0 size), in'), σ)
    /\ good in' = false /\ fail in' = true.
Proof.
  intros Hok Htail. unfold header_without_metadata_size.
  set (s := istream_of _).
  destruct (loadHeader_marker sp _ s σ eq_refl eq_refl) as [-> Hb1].
  unfold bind at 1.
  rewrite (loadHeader_signature_spec sp (computeSignature sp) _ (advance 4 s) σ
             Hok Hok eq_refl Hb1).
  rewrite first_mismatch_refl. cbn [fst snd negb].
  rewrite advance_advance.
  set (s1 := advance _ s).
  assert (Hb2 : in_bytes s1 = object_bytes sizeof_size_t 0 ++ tail).
  { subst s1. rewrite <- advance_advance. unfold advance at 1. cbn [in_bytes].
    rewrite Hb1, <- length_vector_bytes. apply drop_app_length. }
  unfold loadHeader_counts. change (good s1) with true. cbn match.
  destruct (read_app sizeof_size_t (object_bytes sizeof_size_t 0) s1 _ _
              eq_refl Hb2 (length_object_bytes _ _)) as [Hr1 Hb3].
  rewrite Hr1. cbn [fst snd]. change (good (advance sizeof_size_t s1)) with true.
  cbn match. rewrite size_t_of_object_bytes.
  change (wrap_size_t 0) with 0. cbn [Z.ltb Z.compare andb].
  rewrite read_short; [| reflexivity | rewrite Hb3; exact Htail].
  eexists _, _. split; [reflexivity|].
  split; [apply good_exhaust | apply fail_exhaust].
Qed.

(** C6. A stream that ends inside [state_count] is refused by
    [loadHeader], with a message; a stream that holds a [state_count] of 0
    and ends inside [metadata_size] is accepted: [loadHeader] returns [true]
    and reports nothing, although the read of [metadata_size] has failed. *)
Theorem loadHeader_size_fields sp tail σ :
  signature_ok (computeSignature sp) -> (length tail < 8)%nat ->
  (forall s,
      in_bytes s = object_bytes sizeof_uint32_t OMPL_ARCHIVE_MARKER
                   ++ vector_bytes (computeSignature sp) ++ tail ->
      exists s' σ' m,
        loadHeader sp s σ = Defined ((None, s'), σ')
        /\ msg_ σ' = msg_ σ ++ [m] /\ reported m = true)
  /\ (exists size in',
        loadHeader sp
          (istream_of (header_without_metadata_size (computeSignature sp) tail)) σ
        = Defined ((Some (mkHeader 0 size), in'), σ)
        /\ good in' = false /\ fail in' = true).
Proof.
  intros Hok Htail. split.
  - intros s Hb.
    destruct (loadHeader_truncated sp s σ Hok) as (s' & m & Hrun & Hm).
    + rewrite Hb, !length_app, length_object_bytes, length_vector_bytes.
      unfold sizeof_uint32_t. lia.
    + eexists _, _, m. split; [exact Hrun|]. split; [reflexivity | exact Hm].
  - apply loadHeader_cut_metadata_size; assumption.
Qed.

(** C7. [load] on a stream that ends before the end of [state_count]
    reports a failure and leaves no state; [load] on a stream that fails
    later in the header, inside [metadata_size] after a [state_count] of 0,
    reports no failure: it ends with an empty archive, a failed stream and
    no message. *)
Theorem load_header_failures sp σ :
  signature_ok (computeSignature sp) -> archive_ok σ ->
  (forall s,
      (length (in_bytes s) < 4 + 4 * length (computeSignature sp) + 8)%nat ->
      exists s' σ' m,
        load sp s σ = Defined (s', σ')
        /\ states_ σ' = [] /\ msg_ σ' = msg_ σ ++ [m] /\ reported m = true)
  /\ (forall tail,
        (length tail < 8)%nat ->
        exists in',
          load sp
            (istream_of (header_without_metadata_size (computeSignature sp) tail)) σ
          = Defined (in', cleared σ)
          /\ fail in' = true
          /\ states_ (cleared σ) = [] /\ msg_ (cleared σ) = msg_ σ).
Proof.
  intros Hok Harch. split.
  - intros s Hlen.
    destruct (loadHeader_truncated sp s (cleared σ) Hok Hlen)
      as (s' & m & Hrun & Hm).
    eexists s', _, m. unfold load. unfold bind at 1. rewrite (clear_spec σ Harch).
    unfold bind at 1. rewrite Hrun. cbn [fst snd ret].
    split; [reflexivity|]. cbn. auto.
  - intros tail Htail.
    destruct (loadHeader_cut_metadata_size sp tail (cleared σ) Hok Htail)
      as (size & in' & Hrun & _ & Hfail).
    exists in'. unfold load. unfold bind at 1. rewrite (clear_spec σ Harch).
    unfold bind at 1. rewrite Hrun. cbn [fst snd].
    unfold payload_length. cbn [state_count]. rewrite Z.mul_0_l.
    change (wrap_size_t 0 =? 0) with true. cbn match.
    repeat split. exact Hfail.
Qed.

End Truncation.

Section PayloadFacts.
Context {St Rng : Type}.
Implicit Types (sp : StateSpace St Rng) (σ : state St).

Lemma load_loop_step sp header buffer n i σ :
  load_loop sp header buffer (S n) i σ
  = match peek buffer
            (wrap_size_t (i * wrap_size_t (getSerializationLength sp
                                           + metadata_size header)))
            (getSerializationLength sp) with
    | Some bs =>
        load_loop sp header buffer n (i + 1)
          (with_new_state σ (deserialize sp bs))
    | None => Undefined
    end.
Proof.
  cbn [load_loop]. unfold bind at 1, allocState. unfold bind at 1.
  destruct (peek _ _ _) as [bs|]; [|reflexivity].
  cbn [lift ret]. unfold bind at 1, put_state. cbn [heap].
  rewrite lookup_insert_eq. unfold bind at 1, addState, bind, get_states, set_states.
  cbn [states_ msg_ heap trace samplers]. rewrite insert_insert_eq. reflexivity.
Qed.

Lemma load_loop_inv sp header buffer n : forall i σ u σ',
  load_loop sp header buffer n i σ = Defined (u, σ') ->
  exists hs,
    states_ σ' = states_ σ ++ hs /\ length hs = n
    /\ msg_ σ' = msg_ σ /\ trace σ' = trace σ ++ map EvAlloc hs.
Proof.
  induction n as [|n IH]; intros i σ u σ' Hrun.
  - injection Hrun as _ <-. exists []. rewrite !app_nil_r. auto.
  - rewrite load_loop_step in Hrun. destruct (peek _ _ _); [|discriminate].
    apply IH in Hrun as (hs & Hst & Hlen & Hmsg & Htr).
    exists (fresh (dom (heap σ)) :: hs). cbn in *.
    rewrite Hst, Htr, <- !app_assoc. repeat split; auto.
Qed.

(** What [loadHeader] does to the archive: nothing when it accepts the
    header, one warning or error when it refuses it. *)
Lemma loadHeader_loop_inv (sig : list Z) n : forall i s σ c σ',
  loadHeader_loop sig n i s σ = Defined (c, σ') ->
  if fst c then σ' = σ
  else σ' = logged Error "State space signatures do not match" σ.
Proof.
  induction n as [|n IH]; intros i s σ c σ' Hrun.
  - injection Hrun as <- <-. reflexivity.
  - cbn [loadHeader_loop] in Hrun. destruct (good s).
    2:{ injection Hrun as <- <-. reflexivity. }
    apply bind_Defined in Hrun as (e & σ1 & Hat & Hrun).
    assert (σ1 = σ) as ->.
    { unfold vector_at in Hat. destruct (0 <=? i + 1); [|discriminate].
      unfold lift in Hat. destruct (sig !! _); [|discriminate].
      injection Hat as _ <-. reflexivity. }
    destruct (negb _).
    + injection Hrun as <- <-. reflexivity.
    + eapply IH, Hrun.
Qed.

Lemma loadHeader_signature_inv sp s σ c σ' :
  loadHeader_signature sp s σ = Defined (c, σ') ->
  if fst c then σ' = σ
  else σ' = logged Error "State space signatures do not match" σ.
Proof.
  unfold loadHeader_signature. intros Hrun.
  apply bind_Defined in Hrun as (e & σ1 & Hat & Hrun).
  assert (σ1 = σ) as ->.
  { unfold vector_at, lift in Hat. cbn [Z.leb Z.compare] in Hat.
    destruct (computeSignature sp !! Z.to_nat 0); [|discriminate].
    injection Hat as _ <-. reflexivity. }
  destruct (negb _).
  - injection Hrun as <- <-. reflexivity.
  - eapply loadHeader_loop_inv, Hrun.
Qed.

Lemma loadHeader_inv sp s σ o s' σ' :
  loadHeader sp s σ = Defined ((o, s'), σ') ->
  match o with
  | Some _ => σ' = σ
  | None => exists m, reported m = true
                      /\ σ' = logged (msg_level m) (msg_text m) σ
  end.
Proof.
  destruct o as [header|].
  { intros Hrun. apply loadHeader_Some in Hrun as [-> _]. reflexivity. }
  unfold loadHeader. destruct (negb (good s) || eof s).
  { intros [= _ <-]. eexists (Msg Warn _). split; reflexivity. }
  destruct (negb _).
  { intros [= _ <-]. eexists (Msg Error _). split; reflexivity. }
  intros Hrun. apply bind_Defined in Hrun as ([b s1] & σ1 & Hsig & Hrun).
  apply loadHeader_signature_inv in Hsig. cbn [fst snd] in *.
  destruct b; cbn [negb] in Hrun.
  - subst σ1. unfold loadHeader_counts in Hrun.
    destruct (good s1).
    + destruct (good _).
      * destruct (andb _ _); [|discriminate].
        injection Hrun as _ <-. eexists (Msg Error _). split; reflexivity.
      * injection Hrun as _ <-. eexists (Msg Error _). split; reflexivity.
    + injection Hrun as _ <-. eexists (Msg Error _). split; reflexivity.
  - injection Hrun as _ <-. subst σ1.
    eexists (Msg Error _). split; reflexivity.
Qed.

(** The trace after a defined [load]: the states the archive held are
    freed, then the states it ends with are allocated. *)
Lemma load_inv sp in_ σ in' σ' :
  load sp in_ σ = Defined (in', σ') ->
  trace σ' = trace σ ++ map EvFree (states_ σ) ++ map EvAlloc (states_ σ').
Proof.
  unfold load. intros Hrun.
  apply bind_Defined in Hrun as (u & σ0 & Hclear & Hrun).
  apply clear_inv in Hclear as (Hst0 & Hmsg0 & Htr0).
  apply bind_Defined in Hrun as ([o s1] & σ1 & Hhdr & Hrun).
  apply loadHeader_inv in Hhdr.
  cbn [fst snd] in Hrun. destruct o as [header|].
  - subst σ1. unfold bind at 1, malloc_or_NULL in Hrun.
    destruct (payload_length sp header =? 0).
    { injection Hrun as _ <-. rewrite Hst0, Htr0, app_nil_r. reflexivity. }
    destruct (malloc_grants σ0 _).
    2:{ injection Hrun as _ <-. rewrite Hst0, Htr0, app_nil_r. reflexivity. }
    destruct (negb _).
    + unfold bind at 1, msg in Hrun.
      apply bind_Defined in Hrun as (u' & σ2 & Hloop & Hret).
      injection Hret as _ <-.
      apply load_loop_inv in Hloop as (hs & Hst & _ & _ & Htr).
      cbn in Hst, Htr. rewrite Hst0 in Hst. rewrite Hst, Htr, Htr0.
      rewrite <- app_assoc. reflexivity.
    + injection Hrun as _ <-. cbn. rewrite Hst0, Htr0, app_nil_r. reflexivity.
  - injection Hrun as _ <-. destruct Hhdr as (m & _ & ->). cbn.
    rewrite Hst0, Htr0, app_nil_r. reflexivity.
Qed.

(** C8 (amended). When the header is accepted with a [state_count] above
    0, the stream holds fewer bytes than the size [load] computes for its
    buffer and [malloc] returns a buffer of that size, [load] reports that
    the state data cannot be read and leaves no state: the states held
    before are freed and none is allocated. *)
Theorem load_truncated_payload sp in_ σ :
  load_reports_truncation sp (payload_length sp)
    (fun header => malloc_grants σ (payload_length sp header) = true) in_ σ.
Proof.
  intros header in1 σ1 Hhdr Hpos Hshort Hgrants.
  apply bind_Defined in Hhdr as (u & σ0 & Hclear & Hhdr).
  pose proof (loadHeader_Some _ _ _ _ _ _ Hhdr) as (-> & _ & _ & Hgood).
  specialize (Hgood Hpos).
  pose proof (clear_inv _ _ _ Hclear) as (Hst0 & Hmsg0 & Htr0).
  rewrite <- (clear_malloc_grants _ _ _ Hclear) in Hgrants.
  unfold load. unfold bind at 1. rewrite Hclear.
  unfold bind at 1. rewrite Hhdr. cbn [fst snd].
  unfold bind at 1, malloc_or_NULL. rewrite Hgrants.
  destruct (Z.eqb_spec (payload_length sp header) 0) as [Hz | _]; [lia|].
  rewrite read_short; [| exact Hgood | unfold malloc; lia].
  cbn [fst snd]. rewrite fail_exhaust. cbn [negb].
  eexists _, _. split; [reflexivity|]. cbn.
  rewrite Hst0, Hmsg0, Htr0. auto.
Qed.

(** C2 (amended). After a load that accepts the header and reports
    nothing, the collection has [state_count] states provided [state_count]
    is 0, or the size [load] computes for its buffer is not 0 and [malloc]
    returns a buffer of that size; and the states held before were all freed
    before any state was allocated. *)
Theorem load_replaces_collection sp in_ σ :
  load_replaces sp
    (fun header =>
       state_count header = 0
       \/ (payload_length sp header <> 0
           /\ malloc_grants σ (payload_length sp header) = true))
    in_ σ.
Proof.
  intros header in1 σ1 in' σ' Hhdr Hload Hquiet Hcond.
  split; [|exact (load_inv _ _ _ _ _ Hload)].
  apply bind_Defined in Hhdr as (u & σ0 & Hclear & Hhdr).
  pose proof (loadHeader_Some _ _ _ _ _ _ Hhdr) as (-> & Hcount & _).
  pose proof (clear_inv _ _ _ Hclear) as (Hst0 & Hmsg0 & Htr0).
  rewrite <- (clear_malloc_grants _ _ _ Hclear) in Hcond.
  revert Hload. unfold load. unfold bind at 1. rewrite Hclear.
  unfold bind at 1. rewrite Hhdr. cbn [fst snd].
  unfold bind at 1, malloc_or_NULL.
  destruct (Z.eqb_spec (payload_length sp header) 0) as [Hz | Hnz].
  { intros [= _ <-]. rewrite Hst0.
    destruct Hcond as [-> | [? _]]; [reflexivity | contradiction]. }
  destruct (malloc_grants σ0 (payload_length sp header)) eqn:Hgrants.
  2:{ intros [= _ <-]. rewrite Hst0.
      destruct Hcond as [-> | [_ ?]]; [reflexivity | discriminate]. }
  destruct (negb _).
  - unfold bind at 1, msg. intros Hrun.
    apply bind_Defined in Hrun as (u' & σ2 & Hloop & Hret).
    injection Hret as _ <-.
    apply load_loop_inv in Hloop as (hs & Hst & Hlen & _).
    cbn in Hst. rewrite Hst, Hst0. cbn. lia.
  - intros [= _ <-]. exfalso. unfold nothing_reported in Hquiet. cbn in Hquiet.
    rewrite Hmsg0, drop_app_length in Hquiet.
    inversion Hquiet as [|? ? Hm _]. discriminate.
Qed.

End PayloadFacts.

(** C8 (counterexample). For the 4-byte states of [IntSpace], a header
    with [state_count] 1 and [metadata_size] [2^64 - 4] is accepted, the
    payload (no byte) is shorter than the [2^64] bytes declared, and [load]
    reports nothing: the size of the buffer wraps to 0 and the read is
    skipped. A header with [state_count] [2^60] is accepted as well, the
    payload of 8 bytes is shorter than the [2^62] bytes declared, [malloc]
    returns [NULL] for that size, and [load] reports nothing and reads
    nothing. *)
Lemma load_truncated_payload_wraps :
  ((clear ;;; loadHeader IntSpace (istream_of wrapping_metadata_archive))
     empty_archive
   = Defined ((Some (mkHeader 1 (2 ^ 64 - 4)), istream_of []), empty_archive)
   /\ Z.of_nat (length (in_bytes (istream_of [])))
      < declared_payload IntSpace (mkHeader 1 (2 ^ 64 - 4))
   /\ load IntSpace (istream_of wrapping_metadata_archive) empty_archive
      = Defined (istream_of [], empty_archive)
   /\ ~ load_reports_truncation IntSpace (declared_payload IntSpace)
         (fun _ => True) (istream_of wrapping_metadata_archive) empty_archive)
  /\ (exists in1,
        (clear ;;; loadHeader IntSpace (istream_of oversized_archive))
          empty_archive
        = Defined ((Some (mkHeader (2 ^ 60) 0), in1), empty_archive)
        /\ length (in_bytes in1) = 8%nat
        /\ declared_payload IntSpace (mkHeader (2 ^ 60) 0) = 2 ^ 62
        /\ payload_length IntSpace (mkHeader (2 ^ 60) 0) = 2 ^ 62
        /\ malloc_grants empty_archive (2 ^ 62) = false
        /\ load IntSpace (istream_of oversized_archive) empty_archive
           = Defined (in1, empty_archive)
        /\ ~ load_reports_truncation IntSpace (declared_payload IntSpace)
              (fun _ => True) (istream_of oversized_archive) empty_archive
        /\ ~ load_reports_truncation IntSpace (payload_length IntSpace)
              (fun _ => True) (istream_of oversized_archive) empty_archive).
Proof.
  split.
  - assert (Hhdr : (clear ;;; loadHeader IntSpace (istream_of wrapping_metadata_archive))
                     empty_archive
                   = Defined ((Some (mkHeader 1 (2 ^ 64 - 4)), istream_of []),
                              empty_archive))
      by (vm_compute; reflexivity).
    assert (Hload : load IntSpace (istream_of wrapping_metadata_archive) empty_archive
                    = Defined (istream_of [], empty_archive))
      by (vm_compute; reflexivity).
    assert (Hshort : Z.of_nat (length (in_bytes (istream_of [])))
                     < declared_payload IntSpace (mkHeader 1 (2 ^ 64 - 4)))
      by (vm_compute; reflexivity).
    repeat split; trivial.
    intros Hclaim.
    destruct (Hclaim _ _ _ Hhdr eq_refl Hshort I) as (in' & σ' & Hload' & _ & Hmsg & _).
    rewrite Hload in Hload'. injection Hload' as _ <-. discriminate Hmsg.
  - eexists.
    assert (Hhdr : (clear ;;; loadHeader IntSpace (istream_of oversized_archive))
                     empty_archive
                   = Defined ((Some (mkHeader (2 ^ 60) 0),
                               advance 32 (istream_of oversized_archive)),
                              empty_archive))
      by (vm_compute; reflexivity).
    assert (Hload : load IntSpace (istream_of oversized_archive) empty_archive
                    = Defined (advance 32 (istream_of oversized_archive),
                               empty_archive))
      by (vm_compute; reflexivity).
    split; [exact Hhdr|].
    do 4 (split; [vm_compute; reflexivity|]).
    split; [exact Hload|].
    split; intros Hclaim.
    + destruct (Hclaim _ _ _ Hhdr eq_refl) as (in' & σ' & Hload' & _ & Hmsg & _);
        [vm_compute; reflexivity | exact I |].
      rewrite Hload in Hload'. injection Hload' as _ <-. discriminate Hmsg.
    + destruct (Hclaim _ _ _ Hhdr eq_refl) as (in' & σ' & Hload' & _ & Hmsg & _);
        [vm_compute; reflexivity | exact I |].
      rewrite Hload in Hload'. injection Hload' as _ <-. discriminate Hmsg.
Qed.

(** C2 (counterexample). For the 4-byte states of [IntSpace], a header
    with [state_count] [2^62] is accepted and [load] reports nothing, yet the
    collection is left empty: the size of the buffer wraps to 0. A header
    with [state_count] [2^60] is accepted and [load] reports nothing, yet
    the collection is left empty as well: [malloc] returns [NULL] for the
    [2^62] bytes of the buffer. *)
Lemma load_replaces_wraps :
  ((clear ;;; loadHeader IntSpace (istream_of wrapping_count_archive))
     empty_archive
   = Defined ((Some (mkHeader (2 ^ 62) 0), istream_of []), empty_archive)
   /\ load IntSpace (istream_of wrapping_count_archive) empty_archive
      = Defined (istream_of [], empty_archive)
   /\ ~ load_replaces IntSpace (fun _ => True)
         (istream_of wrapping_count_archive) empty_archive)
  /\ (exists in1,
        (clear ;;; loadHeader IntSpace (istream_of oversized_archive))
          empty_archive
        = Defined ((Some (mkHeader (2 ^ 60) 0), in1), empty_archive)
        /\ payload_length IntSpace (mkHeader (2 ^ 60) 0) = 2 ^ 62
        /\ malloc_grants empty_archive (2 ^ 62) = false
        /\ load IntSpace (istream_of oversized_archive) empty_archive
           = Defined (in1, empty_archive)
        /\ ~ load_replaces IntSpace (fun _ => True)
              (istream_of oversized_archive) empty_archive
        /\ ~ load_replaces IntSpace
              (fun header => payload_length IntSpace header <> 0
                             \/ state_count header = 0)
              (istream_of oversized_archive) empty_archive).
Proof.
  split.
  - assert (Hhdr : (clear ;;; loadHeader IntSpace (istream_of wrapping_count_archive))
                     empty_archive
                   = Defined ((Some (mkHeader (2 ^ 62) 0), istream_of []),
                              empty_archive))
      by (vm_compute; reflexivity).
    assert (Hload : load IntSpace (istream_of wrapping_count_archive) empty_archive
                    = Defined (istream_of [], empty_archive))
      by (vm_compute; reflexivity).
    repeat split; trivial.
    intros Hclaim.
    destruct (Hclaim _ _ _ _ _ Hhdr Hload) as [Hsize _].
    + constructor.
    + exact I.
    + discriminate Hsize.
  - eexists.
    assert (Hhdr : (clear ;;; loadHeader IntSpace (istream_of oversized_archive))
                     empty_archive
                   = Defined ((Some (mkHeader (2 ^ 60) 0),
                               advance 32 (istream_of oversized_archive)),
                              empty_archive))
      by (vm_compute; reflexivity).
    assert (Hload : load IntSpace (istream_of oversized_archive) empty_archive
                    = Defined (advance 32 (istream_of oversized_archive),
                               empty_archive))
      by (vm_compute; reflexivity).
    split; [exact Hhdr|].
    do 2 (split; [vm_compute; reflexivity|]).
    split; [exact Hload|].
    split; intros Hclaim.
    + destruct (Hclaim _ _ _ _ _ Hhdr Hload) as [Hsize _].
      * constructor.
      * exact I.
      * discriminate Hsize.
    + destruct (Hclaim _ _ _ _ _ Hhdr Hload) as [Hsize _].
      * constructor.
      * left. vm_compute. discriminate.
      * discriminate Hsize.
Qed.

(** Records of [n] bytes, one after the other. *)
Lemma take_drop_concat {A} (n : nat) (chunks : list (list A)) : forall j c,
  Forall (fun c => length c = n) chunks -> chunks !! j = Some c ->
  take n (drop (j * n) (concat chunks)) = c.
Proof.
  induction chunks as [|c0 chunks IH]; intros j c Hall Hj; [discriminate|].
  inversion Hall as [|? ? Hc0 Hall']; subst.
  destruct j as [|j]; cbn [concat].
  - injection Hj as ->. apply take_app_length'. reflexivity.
  - cbn [Nat.mul]. rewrite drop_app_add' by reflexivity. apply IH; assumption.
Qed.

Lemma length_concat_records {A} (n : nat) (chunks : list (list A)) :
  Forall (fun c => length c = n) chunks ->
  length (concat chunks) = (length chunks * n)%nat.
Proof.
  induction 1 as [|c chunks Hc _ IH]; [reflexivity|].
  cbn [concat length]. rewrite length_app, IH, Hc. lia.
Qed.

Section RoundTripFacts.
Context {St Rng : Type}.
Implicit Types (sp : StateSpace St Rng) (σ : state St).

Lemma states_values σ hs :
  (forall h, h ∈ hs -> is_Some (heap σ !! h)) ->
  exists sts, Forall2 (fun h st => heap σ !! h = Some st) hs sts.
Proof.
  induction hs as [|h hs IH]; intros Hin.
  - exists []. constructor.
  - destruct (Hin h) as [st Hst]; [left|].
    destruct IH as [sts Hsts]; [intros h' Hh'; apply Hin; right; exact Hh'|].
    exists (st :: sts). constructor; assumption.
Qed.

(** The buffer [store] fills: the serialized states, in order. *)
Lemma store_loop_spec sp (n : nat) :
  getSerializationLength sp = Z.of_nat n ->
  (forall st, length (serialize sp st) = n) ->
  forall hs sts i buffer σ,
    Forall2 (fun h st => heap σ !! h = Some st) hs sts ->
    length buffer = ((i + length hs) * n)%nat ->
    Z.of_nat ((i + length hs) * n) <= SIZE_MAX ->
    store_loop sp (Z.of_nat n) hs (Z.of_nat i) buffer σ
    = Defined (take (i * n) buffer ++ concat (map (serialize sp) sts), σ).
Proof.
  intros Hl Hser hs sts i buffer σ Hvals. revert i buffer.
  induction Hvals as [|h st hs sts Hh _ IH]; intros i buffer Hlen Hmax.
  - cbn. rewrite app_nil_r, Nat.add_0_r in *.
    rewrite take_ge by lia. reflexivity.
  - cbn [store_loop length map concat] in *.
    unfold bind at 1, get_state. rewrite Hh.
    assert (Hoff : wrap_size_t (Z.of_nat i * Z.of_nat n) = Z.of_nat (i * n)).
    { rewrite <- Nat2Z.inj_mul. apply wrap_size_t_small. nia. }
    rewrite Hoff. unfold bind at 1, poke. rewrite Hser.
    replace (0 <=? Z.of_nat (i * n)) with true by (symmetry; apply Z.leb_le; lia).
    replace (Z.of_nat (i * n) + Z.of_nat n <=? Z.of_nat (length buffer))
      with true by (symmetry; apply Z.leb_le; nia).
    cbn [andb lift ret]. rewrite Nat2Z.id.
    replace (Z.of_nat i + 1) with (Z.of_nat (S i)) by lia.
    rewrite IH.
    + replace (S i * n)%nat with (i * n + n)%nat by lia.
      rewrite take_app_add' by (rewrite length_take; nia).
      rewrite take_app_length' by (rewrite Hser; reflexivity).
      rewrite <- app_assoc. reflexivity.
    + rewrite !length_app, length_take, length_drop, Hser. nia.
    + replace (S i + length hs)%nat with (i + S (length hs))%nat by lia.
      exact Hmax.
Qed.

(** What [store] writes for an archive whose states are allocated. *)
Lemma store_spec sp out σ sts :
  StateSpaceOk sp -> out_good out = true ->
  Forall2 (fun h st => heap σ !! h = Some st) (states_ σ) sts ->
  Z.of_nat (length (states_ σ)) * getSerializationLength sp <= SIZE_MAX ->
  exists out',
    store sp out σ = Defined (out', logged Debug "Serializing %u states" σ)
    /\ written out out'
       = header_bytes (computeSignature sp) (Z.of_nat (length (states_ σ))) 0
         ++ concat (map (serialize sp) sts).
Proof.
  intros [Hsig Hrange Hser _] Hg Hvals Hmax.
  destruct (signature_ok_cons _ Hsig) as (body & Hbody & _).
  set (n := Z.to_nat (getSerializationLength sp)).
  assert (Hn : getSerializationLength sp = Z.of_nat n) by (subst n; lia).
  assert (Hser' : forall st, length (serialize sp st) = n).
  { intros st. specialize (Hser st). lia. }
  unfold store. rewrite Hg. cbn [negb]. unfold bind at 1.
  rewrite Hbody, vector_at_0. rewrite <- Hbody.
  unfold bind at 1, get_states. unfold bind at 1, msg. unfold bind at 1.
  rewrite Hn. rewrite wrap_size_t_small by lia.
  pose proof (store_loop_spec sp n Hn Hser' (states_ σ) sts 0
                (malloc (Z.of_nat n * Z.of_nat (length (states_ σ))))
                (logged Debug "Serializing %u states" σ)) as Hloop.
  change (Z.of_nat 0) with 0 in Hloop. cbn [logged states_ heap] in Hloop |- *.
  rewrite Hloop; trivial.
  - eexists. split; [reflexivity|]. cbn [take app]. unfold written, write.
    cbn [out_good out_bytes]. rewrite Hg. cbn [out_good out_bytes].
    unfold header_bytes. rewrite <- !app_assoc. apply drop_app_length.
  - unfold malloc. rewrite repeat_length. lia.
  - lia.
Qed.

(** The states [load] decodes from a buffer of [i + k] records of
    [step] bytes, from record [i] on. *)
Lemma load_loop_spec sp header buffer (n step : nat) :
  getSerializationLength sp = Z.of_nat n ->
  wrap_size_t (getSerializationLength sp + metadata_size header) = Z.of_nat step ->
  (n <= step)%nat ->
  forall k i σ,
    length buffer = ((i + k) * step)%nat ->
    Z.of_nat ((i + k) * step) <= SIZE_MAX ->
    exists σ' hs,
      load_loop sp header buffer k (Z.of_nat i) σ = Defined (tt, σ')
      /\ states_ σ' = states_ σ ++ hs
      /\ length hs = k
      /\ (forall j h, hs !! j = Some h ->
          heap σ' !! h
          = Some (deserialize sp (take n (drop ((i + j) * step) buffer))))
      /\ (forall h st, heap σ !! h = Some st -> heap σ' !! h = Some st).
Proof.
  intros Hn Hstep Hle. induction k as [|k IH]; intros i σ Hlen Hmax.
  - exists σ, []. rewrite app_nil_r. repeat split; auto. discriminate.
  - rewrite load_loop_step, Hstep, Hn.
    rewrite <- Nat2Z.inj_mul, wrap_size_t_small by nia.
    unfold peek.
    replace (0 <=? Z.of_nat (i * step)) with true by (symmetry; apply Z.leb_le; lia).
    replace (0 <=? Z.of_nat n) with true by (symmetry; apply Z.leb_le; lia).
    replace (Z.of_nat (i * step) + Z.of_nat n <=? Z.of_nat (length buffer))
      with true by (symmetry; apply Z.leb_le; nia).
    cbn [andb]. rewrite !Nat2Z.id.
    replace (Z.of_nat i + 1) with (Z.of_nat (S i)) by lia.
    set (st := deserialize sp (take n (drop (i * step) buffer))).
    destruct (IH (S i) (with_new_state σ st)) as (σ' & hs & Hrun & Hst & Hk & Hval & Hold);
      [lia | replace (S i + k)%nat with (i + S k)%nat by lia; exact Hmax |].
    exists σ', (fresh (dom (heap σ)) :: hs). split; [exact Hrun|].
    cbn [with_new_state states_ heap] in *.
    rewrite Hst, <- app_assoc. repeat split; auto.
    + cbn. lia.
    + intros [|j] h Hj.
      * injection Hj as <-. rewrite Nat.add_0_r.
        apply Hold, lookup_insert_eq.
      * replace (i + S j)%nat with (S i + j)%nat by lia. apply Hval, Hj.
    + intros h st' Hh. apply Hold. rewrite lookup_insert_ne; [exact Hh|].
      intros <-. rewrite fresh_not_in_heap in Hh. discriminate.
Qed.

End RoundTripFacts.

Section RoundTrip.
Context {St Rng : Type}.
Implicit Types (sp : StateSpace St Rng) (σ : state St).


End RoundTrip.

Lemma IntSpace_ok : StateSpaceOk IntSpace.
Proof.
  split.
  - split; [|reflexivity].
    repeat constructor; unfold INT_MIN, INT_MAX; cbn; lia.
  - unfold UINT_MAX. cbn. lia.
  - intros st. cbn. rewrite length_object_bytes. reflexivity.
  - intros st. cbn. unfold object_bytes, int_of_bytes.
    apply le_combine_inj; [rewrite !length_le_split; reflexivity|].
    rewrite !le_combine_split.
    change (2 ^ (Z.of_nat sizeof_int * 8)) with (2 ^ 32).
    pose proof (Z.mod_pos_bound st (2 ^ 32) ltac:(lia)).
    destruct (Z.ltb_spec (st mod 2 ^ 32) (2 ^ 31)).
    + apply Z.mod_mod. lia.
    + rewrite <- (Z.mod_mod st (2 ^ 32)) at 2 by lia.
      rewrite <- Zminus_mod_idemp_r, Z.mod_same, Z.sub_0_r by lia.
      reflexivity.
Qed.

Lemma ZeroSpace_ok : StateSpaceOk ZeroSpace.
Proof.
  split.
  - split; [|reflexivity].
    repeat constructor; unfold INT_MIN, INT_MAX; cbn; lia.
  - unfold UINT_MAX. cbn. lia.
  - intros st. reflexivity.
  - intros st. reflexivity.
Qed.


(** ** The statements on the example archives *)

Lemma IntSpace_signature_ok : signature_ok (computeSignature IntSpace).
Proof. exact (signature_of_space _ IntSpace_ok). Qed.

Lemma WideSpace_signature_ok : signature_ok (computeSignature WideSpace).
Proof.
  split; [|reflexivity].
  repeat constructor; unfold INT_MIN, INT_MAX; cbn; lia.
Qed.

Lemma empty_archive_ok : archive_ok empty_archive.
Proof. split; [constructor | intros h Hh; inversion Hh]. Qed.

Lemma one_state_archive_ok : archive_ok one_state_archive.
Proof.
  split; [apply NoDup_singleton|].
  intros h ->%list_elem_of_singleton. eexists. reflexivity.
Qed.

Lemma two_state_archive_live h :
  h ∈ states_ two_state_archive -> is_Some (heap two_state_archive !! h).
Proof.
  cbn. intros [-> | [-> | Hh]%elem_of_cons]%elem_of_cons.
  - eexists. reflexivity.
  - eexists. reflexivity.
  - inversion Hh.
Qed.


(** C2: loading the two states into an archive that holds one state
    frees that state and leaves the two states. *)
Lemma load_replaces_collection_witness :
  exists in' σ',
    load IntSpace (istream_of two_state_bytes) one_state_archive
    = Defined (in', σ')
    /\ Z.of_nat (length (states_ σ')) = 2
    /\ trace σ' = map EvFree (states_ one_state_archive)
                  ++ map EvAlloc (states_ σ').
Proof.
  eexists _, _. split; [vm_compute; reflexivity|].
  eapply (load_replaces_collection IntSpace (istream_of two_state_bytes)
           one_state_archive (mkHeader 2 0) (istream_of (drop 32 two_state_bytes))
           (cleared one_state_archive)).
  - vm_compute. reflexivity.
  - vm_compute. reflexivity.
  - unfold nothing_reported. cbn. repeat constructor.
  - right. split; [vm_compute; discriminate | vm_compute; reflexivity].
Defined.

(** C3: the archive of [IntSpace] is refused for [WideSpace] at the third
    element of the signature. *)
Lemma load_signature_mismatch_witness :
  exists k in' σ',
    load WideSpace
      (istream_of (written (mkOstream [] true) (mkOstream two_state_bytes true)))
      one_state_archive
    = Defined (in', σ')
    /\ states_ σ' = []
    /\ msg_ σ' = msg_ one_state_archive
                 ++ [Msg Error "State space signatures do not match"]
    /\ trace σ' = trace one_state_archive ++ map EvFree (states_ one_state_archive)
    /\ first_mismatch (computeSignature IntSpace) (computeSignature WideSpace)
       = Some k
    /\ (k < length (computeSignature IntSpace))%nat
    /\ in_bytes in'
       = drop (4 + 4 * S k)
           (written (mkOstream [] true) (mkOstream two_state_bytes true)).
Proof.
  apply (load_signature_mismatch IntSpace WideSpace two_state_archive
           (mkOstream [] true) (mkOstream two_state_bytes true)
           (logged Debug "Serializing %u states" two_state_archive)
           one_state_archive).
  - exact IntSpace_signature_ok.
  - exact WideSpace_signature_ok.
  - discriminate.
  - reflexivity.
  - vm_compute. reflexivity.
  - exact one_state_archive_ok.
Defined.

(** C4: the allocator of an archive of [IntSpace] throws for [WideSpace]
    and returns a sampler for [IntSpace]. *)
Lemma allocator_checks_signature_witness :
  (exists e,
      call_allocator (mkStateSamplerAllocator (computeSignature IntSpace))
        WideSpace two_state_archive
      = Defined (inl e, two_state_archive))
  /\ call_allocator (mkStateSamplerAllocator (computeSignature IntSpace))
       IntSpace two_state_archive
     = Defined (inr (mkPrecomputedStateSampler IntSpace
                       (states_ two_state_archive)), two_state_archive).
Proof.
  split.
  - apply (allocator_checks_signature IntSpace WideSpace two_state_archive
             two_state_archive _ two_state_archive eq_refl).
    discriminate.
  - apply (allocator_checks_signature IntSpace IntSpace two_state_archive
             two_state_archive _ two_state_archive eq_refl).
    reflexivity.
Defined.


(** C6: for [IntSpace], the header that ends after a [state_count] of 0 is
    accepted. *)
Lemma loadHeader_size_fields_witness :
  exists size in',
    loadHeader IntSpace
      (istream_of (header_without_metadata_size (computeSignature IntSpace) []))
      empty_archive
    = Defined ((Some (mkHeader 0 size), in'), empty_archive)
    /\ good in' = false /\ fail in' = true.
Proof.
  apply (loadHeader_size_fields IntSpace [] empty_archive).
  - exact IntSpace_signature_ok.
  - cbn. lia.
Defined.

(** C7: for [IntSpace], [load] of the header that ends after a
    [state_count] of 0 reports nothing. *)
Lemma load_header_failures_witness :
  exists in',
    load IntSpace
      (istream_of (header_without_metadata_size (computeSignature IntSpace) []))
      one_state_archive
    = Defined (in', cleared one_state_archive)
    /\ fail in' = true
    /\ states_ (cleared one_state_archive) = []
    /\ msg_ (cleared one_state_archive) = msg_ one_state_archive.
Proof.
  apply (load_header_failures IntSpace one_state_archive).
  - exact IntSpace_signature_ok.
  - exact one_state_archive_ok.
  - cbn. lia.
Defined.

(** C8: the archive of two states, cut 3 bytes before its end, is
    reported as truncated. *)
Lemma load_truncated_payload_witness :
  exists in' σ',
    load IntSpace (istream_of (take 37 two_state_bytes)) one_state_archive
    = Defined (in', σ')
    /\ states_ σ' = []
    /\ msg_ σ' = msg_ one_state_archive
                 ++ [Msg Error "Unable to read state data. Incorrect file format"]
    /\ trace σ' = trace one_state_archive ++ map EvFree (states_ one_state_archive).
Proof.
  apply (load_truncated_payload IntSpace (istream_of (take 37 two_state_bytes))
           one_state_archive (mkHeader 2 0)
           (istream_of (drop 32 (take 37 two_state_bytes)))
           (cleared one_state_archive)).
  - vm_compute. reflexivity.
  - reflexivity.
  - vm_compute. reflexivity.
  - vm_compute. reflexivity.
Defined.

(** C9: three samples added to an archive of one state. *)
Lemma generateSamples_appends_witness :
  exists σ' new,
    generateSamples IntSpace 3 one_state_archive = Defined (tt, σ')
    /\ states_ σ' = states_ one_state_archive ++ new
    /\ Z.of_nat (length new) = 3
    /\ Z.of_nat (length (states_ σ'))
       = Z.of_nat (length (states_ one_state_archive)) + 3
    /\ Forall2 (fun h v => heap σ' !! h = Some v) new
         (samples IntSpace (Z.to_nat 3)
            (allocStateSampler_rng IntSpace (samplers one_state_archive)))
    /\ (forall h st, heap one_state_archive !! h = Some st ->
        heap σ' !! h = Some st).
Proof.
  apply (generateSamples_appends IntSpace 3 one_state_archive).
  unfold UINT_MAX. lia.
Defined.

(** C10: for the state space without signature, [loadHeader] on an
    archive that starts with the marker is undefined. *)
Lemma loadHeader_signature_0_witness :
  loadHeader UnsignedSpace (istream_of two_state_bytes) empty_archive = Undefined.
Proof.
  apply (proj1 (loadHeader_signature_0 UnsignedSpace
                  (istream_of two_state_bytes) empty_archive) eq_refl).
  repeat split.
Defined.

(** * Further properties *)

(** ** Ownership of the states *)

Section Ownership.
Context {St Rng : Type}.
Implicit Types (sp : StateSpace St Rng) (σ : state St).

Lemma lookup_released (hs : list handle) : forall (m : gmap handle St) h,
  released hs m !! h = if decide (h ∈ hs) then None else m !! h.
Proof.
  induction hs as [|k hs IH]; intros m h; cbn [released foldl].
  - destruct (decide (h ∈ [])) as [Hin|]; [inversion Hin | reflexivity].
  - fold (released hs (delete k m)). rewrite IH.
    destruct (decide (h ∈ hs)) as [Hin | Hout].
    + rewrite decide_True by (right; exact Hin). reflexivity.
    + rewrite lookup_delete. destruct (decide (k = h)) as [-> | Hne].
      * rewrite decide_True by left. reflexivity.
      * rewrite decide_False; [reflexivity|].
        intros [-> | Hin]%elem_of_cons; contradiction.
Qed.

Lemma clear_loop_defined hs : forall σ u σ',
  clear_loop hs σ = Defined (u, σ') ->
  NoDup hs /\ forall h, h ∈ hs -> is_Some (heap σ !! h).
Proof.
  induction hs as [|h hs IH]; intros σ u σ' Hrun.
  - split; [constructor | intros h Hh; inversion Hh].
  - cbn [clear_loop] in Hrun.
    apply bind_Defined in Hrun as (u' & σ1 & Hfree & Hrun).
    unfold freeState in Hfree.
    destruct (heap σ !! h) as [st|] eqn:Hh; [|discriminate].
    injection Hfree as _ <-. apply IH in Hrun as [Hnd Hlive]. cbn in Hlive.
    assert (Hnotin : h ∉ hs).
    { intros Hin. destruct (Hlive h Hin) as [st' Hst'].
      rewrite lookup_delete_eq in Hst'. discriminate. }
    split; [constructor; assumption|].
    intros h' [-> | Hin]%elem_of_cons; [eauto|].
    destruct (Hlive h' Hin) as [st' Hst'].
    rewrite lookup_delete_ne in Hst' by (intros ->; contradiction). eauto.
Qed.

Lemma clear_Defined_owned σ u σ' : clear σ = Defined (u, σ') -> archive_ok σ.
Proof.
  intros Hrun. unfold clear, get_states in Hrun. unfold bind at 1 in Hrun.
  apply bind_Defined in Hrun as (u' & σ1 & Hloop & _).
  exact (clear_loop_defined _ _ _ _ Hloop).
Qed.

(** X1. [clear] is defined exactly for an archive whose handles are
    distinct and allocated: otherwise a state would be freed twice or a
    state that is not allocated would be freed. *)
Theorem clear_defined_iff σ :
  (exists σ', clear σ = Defined (tt, σ')) <-> archive_ok σ.
Proof.
  split.
  - intros [σ' Hrun]. exact (clear_Defined_owned _ _ _ Hrun).
  - intros Hok. exists (cleared σ). apply clear_spec, Hok.
Qed.

(** X2. On an archive that owns its states, [clear] frees each state once,
    in the order of the collection, empties the collection and leaves the
    other states of the heap as they are; a second [clear] does nothing. *)
Theorem clear_frees_collection σ :
  archive_ok σ ->
  exists σ',
    clear σ = Defined (tt, σ')
    /\ states_ σ' = []
    /\ trace σ' = trace σ ++ map EvFree (states_ σ)
    /\ (forall h, heap σ' !! h
                  = if decide (h ∈ states_ σ) then None else heap σ !! h)
    /\ msg_ σ' = msg_ σ
    /\ clear σ' = Defined (tt, σ').
Proof.
  intros Hok. exists (cleared σ). split; [apply clear_spec, Hok|].
  repeat split.
  intros h. apply (lookup_released (states_ σ) (heap σ) h).
Qed.

(** X3. [addState] does not check the handle it is given: after the same
    handle is added twice, [clear] is undefined, it would free the state
    twice. *)
Theorem addState_twice_clear (s : handle) σ :
  (addState s ;;; addState s ;;; clear) σ = @Undefined (unit * state St).
Proof.
  destruct ((addState s ;;; addState s ;;; clear) σ) as [[u σ']|] eqn:Hrun;
    [|reflexivity].
  exfalso. unfold bind at 1, addState, bind, get_states, set_states in Hrun.
  cbn in Hrun.
  destruct u.
  assert (Hok : archive_ok
                  (mkState ((states_ σ ++ [s]) ++ [s]) (msg_ σ) (heap σ)
                           (trace σ) (samplers σ) (malloc_grants σ))).
  { exact (clear_Defined_owned _ _ _ Hrun). }
  destruct Hok as [Hnd _]. cbn in Hnd.
  rewrite <- app_assoc in Hnd. apply NoDup_app in Hnd as (_ & _ & Hnd).
  apply NoDup_cons in Hnd as [Hnotin _]. apply Hnotin. left.
Qed.

Lemma archive_ok_with_new_state σ (st : St) :
  archive_ok σ -> archive_ok (with_new_state σ st).
Proof.
  intros [Hnd Hlive]. unfold with_new_state. split; cbn.
  - apply NoDup_app. split; [exact Hnd|]. split; [|apply NoDup_singleton].
    intros h Hin ->%list_elem_of_singleton.
    destruct (Hlive _ Hin) as [st' Hst']. rewrite fresh_not_in_heap in Hst'.
    discriminate.
  - intros h [Hin | ->%list_elem_of_singleton]%elem_of_app.
    + destruct (decide (fresh (dom (heap σ)) = h)) as [<- | Hne].
      * rewrite lookup_insert_eq. eauto.
      * rewrite lookup_insert_ne by exact Hne. apply Hlive, Hin.
    + rewrite lookup_insert_eq. eauto.
Qed.

Lemma released_with_new_state σ (st : St) (m : gmap handle St) :
  heap σ !! fresh (dom (heap σ)) = None ->
  released (states_ (with_new_state σ st)) (heap (with_new_state σ st))
  = released (states_ σ) (heap σ).
Proof.
  intros Hfresh. apply map_eq. intros h. rewrite !lookup_released. cbn.
  destruct (decide (h ∈ states_ σ)) as [Hin | Hout].
  - rewrite decide_True by (apply elem_of_app; left; exact Hin). reflexivity.
  - destruct (decide (h = fresh (dom (heap σ)))) as [-> | Hne].
    + rewrite decide_True by (apply elem_of_app; right; left).
      symmetry. exact Hfresh.
    + rewrite decide_False.
      * apply lookup_insert_ne. congruence.
      * intros [Hin | Hin%list_elem_of_singleton]%elem_of_app; contradiction.
Qed.

Lemma generateSamples_loop_owned sp n : forall ss σ u σ',
  generateSamples_loop sp n ss σ = Defined (u, σ') ->
  archive_ok σ ->
  archive_ok σ'
  /\ released (states_ σ') (heap σ') = released (states_ σ) (heap σ).
Proof.
  induction n as [|n IH]; intros ss σ u σ' Hrun Hok.
  - injection Hrun as _ <-. auto.
  - cbn [generateSamples_loop] in Hrun. rewrite alloc_put_add in Hrun.
    apply IH in Hrun as [Hok' Hrel]; [|apply archive_ok_with_new_state, Hok].
    split; [exact Hok'|]. rewrite Hrel.
    apply (released_with_new_state σ _ (heap σ)), fresh_not_in_heap.
Qed.

Lemma load_loop_owned sp header buffer n : forall i σ u σ',
  load_loop sp header buffer n i σ = Defined (u, σ') ->
  archive_ok σ ->
  archive_ok σ'
  /\ released (states_ σ') (heap σ') = released (states_ σ) (heap σ).
Proof.
  induction n as [|n IH]; intros i σ u σ' Hrun Hok.
  - injection Hrun as _ <-. auto.
  - rewrite load_loop_step in Hrun. destruct (peek _ _ _); [|discriminate].
    apply IH in Hrun as [Hok' Hrel]; [|apply archive_ok_with_new_state, Hok].
    split; [exact Hok'|]. rewrite Hrel.
    apply (released_with_new_state σ _ (heap σ)), fresh_not_in_heap.
Qed.

(** X4. [generateSamples] keeps the archive the owner of its states: the
    handles stay distinct and allocated, and freeing the whole collection
    afterwards leaves the heap that freeing it before would have left. *)
Theorem generateSamples_owned sp count σ σ' :
  archive_ok σ ->
  generateSamples sp count σ = Defined (tt, σ') ->
  archive_ok σ'
  /\ released (states_ σ') (heap σ') = released (states_ σ) (heap σ).
Proof.
  intros Hok Hrun. unfold generateSamples, allocStateSampler in Hrun.
  unfold bind at 1 in Hrun.
  exact (generateSamples_loop_owned _ _ _ _ _ _ Hrun Hok).
Qed.

(** X5. Whatever the stream holds, a defined [load] leaves an archive that
    owns its states, and everything it allocated belongs to the collection:
    freeing the collection afterwards gives the heap that [clear] alone
    would have given. *)
Theorem load_owned sp in_ σ in' σ' :
  load sp in_ σ = Defined (in', σ') ->
  archive_ok σ /\ archive_ok σ'
  /\ released (states_ σ') (heap σ') = heap (cleared σ).
Proof.
  intros Hrun. unfold load in Hrun.
  apply bind_Defined in Hrun as ([] & σ0 & Hclear & Hrun).
  assert (Hok : archive_ok σ) by exact (clear_Defined_owned _ _ _ Hclear).
  rewrite (clear_spec σ Hok) in Hclear. injection Hclear as <-.
  split; [exact Hok|].
  assert (Hok0 : archive_ok (cleared σ)).
  { split; cbn; [constructor | intros h Hh; inversion Hh]. }
  apply bind_Defined in Hrun as ([o s1] & σ1 & Hhdr & Hrun).
  apply loadHeader_inv in Hhdr. cbn [fst snd] in Hrun.
  destruct o as [header|].
  - subst σ1. unfold bind at 1, malloc_or_NULL in Hrun.
    destruct (payload_length sp header =? 0).
    { injection Hrun as _ <-. auto. }
    destruct (malloc_grants (cleared σ) _).
    2:{ injection Hrun as _ <-. auto. }
    destruct (negb _).
    + unfold bind at 1, msg in Hrun.
      apply bind_Defined in Hrun as (u' & σ2 & Hloop & Hret).
      injection Hret as _ <-.
      apply load_loop_owned in Hloop as [Hok' Hrel]; [|exact Hok0].
      split; [exact Hok'|]. rewrite Hrel. reflexivity.
    + injection Hrun as _ <-. auto.
  - injection Hrun as _ <-. destruct Hhdr as (m & _ & ->). auto.
Qed.

(** X6. An archive is created without states, and the destructor frees
    what [generateSamples] allocated in between: the heap is the one the
    archive was created in. *)
Theorem generateSamples_no_leak sp count (heap0 : gmap handle St) trace0 samplers0
    grants0 :
  exists σ',
    (generateSamples sp count ;;; StateStorage_delete)
      (StateStorage_new heap0 trace0 samplers0 grants0) = Defined (tt, σ')
    /\ states_ σ' = [] /\ heap σ' = heap0.
Proof.
  set (σ := StateStorage_new heap0 trace0 samplers0 grants0).
  assert (Hok : archive_ok σ).
  { split; cbn; [constructor | intros h Hh; inversion Hh]. }
  destruct (generateSamples_loop_spec sp (Z.to_nat count)
              (allocStateSampler_rng sp samplers0)
              (mkState [] [] heap0 trace0 (S samplers0) grants0))
    as (σ1 & new & Hrun & _).
  assert (Hgen : generateSamples sp count σ = Defined (tt, σ1)) by exact Hrun.
  destruct (generateSamples_loop_owned sp _ _ _ _ _ Hrun) as [Hok1 Hrel];
    [exact Hok|].
  exists (cleared σ1). unfold bind at 1. rewrite Hgen.
  unfold StateStorage_delete. rewrite (clear_spec σ1 Hok1).
  split; [reflexivity|]. split; [reflexivity|]. exact Hrel.
Qed.

End Ownership.

(** ** Refusals of [load] *)

Lemma object_bytes_of_unsigned n bs :
  length bs = n -> object_bytes n (unsigned_of_bytes bs) = bs.
Proof. intros Hlen. apply split_le_combine'. exact Hlen. Qed.

Lemma object_bytes_of_int bs :
  length bs = sizeof_int -> object_bytes sizeof_int (int_of_bytes bs) = bs.
Proof.
  intros Hlen. unfold object_bytes, int_of_bytes.
  apply le_combine_inj; [rewrite length_le_split; symmetry; exact Hlen|].
  rewrite le_combine_split. change (2 ^ (Z.of_nat sizeof_int * 8)) with (2 ^ 32).
  pose proof (le_combine_bound bs) as Hb. rewrite Hlen in Hb.
  change (2 ^ (8 * Z.of_nat sizeof_int)) with (2 ^ 32) in Hb.
  destruct (Z.ltb_spec (le_combine bs) (2 ^ 31)).
  - apply Z.mod_small. lia.
  - rewrite <- Zminus_mod_idemp_r, Z.mod_same, Z.sub_0_r by lia.
    apply Z.mod_small. lia.
Qed.

Section Refusals.
Context {St Rng : Type}.
Implicit Types (sp : StateSpace St Rng) (σ : state St).

Lemma load_not_readable sp in_ σ :
  archive_ok σ -> good in_ = false \/ eof in_ = true ->
  load sp in_ σ
  = Defined (in_, logged Warn "Unable to load states" (cleared σ)).
Proof.
  intros Hok Hbad. unfold load. unfold bind at 1. rewrite (clear_spec σ Hok).
  unfold bind at 1, loadHeader.
  assert (negb (good in_) || eof in_ = true) as ->.
  { destruct Hbad as [-> | ->]; [reflexivity | apply orb_true_r]. }
  reflexivity.
Qed.

(** X7. [load] on a stream that is not readable (a flag is set) warns that
    the states cannot be loaded, reads nothing and leaves the archive
    without states. *)
Theorem load_unreadable sp in_ σ :
  archive_ok σ -> good in_ = false \/ eof in_ = true ->
  load sp in_ σ
  = Defined (in_, logged Warn "Unable to load states" (cleared σ))
  /\ states_ (logged Warn "Unable to load states" (cleared σ)) = []
  /\ msg_ (logged Warn "Unable to load states" (cleared σ))
     = msg_ σ ++ [Msg Warn "Unable to load states"]
  /\ trace (logged Warn "Unable to load states" (cleared σ))
     = trace σ ++ map EvFree (states_ σ).
Proof.
  intros Hok Hbad. split; [apply load_not_readable; assumption|].
  repeat split.
Qed.

(** X8. [load] on a readable stream that does not start with the marker
    reports that the data does not start with the correct header and leaves
    the archive without states, whatever the state space: the signature is
    not computed, nothing after the first 4 bytes is read and no state is
    allocated. *)
Theorem load_bad_marker sp in_ σ :
  archive_ok σ -> good in_ = true ->
  unsigned_of_bytes (take 4 (in_bytes in_)) <> OMPL_ARCHIVE_MARKER ->
  exists in',
    load sp in_ σ
    = Defined (in', logged Error
                      "The stored data does not start with the correct header"
                      (cleared σ))
    /\ in_bytes in' = drop 4 (in_bytes in_).
Proof.
  intros Hok Hg Hmarker. unfold load. unfold bind at 1.
  rewrite (clear_spec σ Hok). unfold bind at 1, loadHeader.
  assert (He : eof in_ = false).
  { unfold good in Hg. unfold eof. destruct (eofbit in_); [discriminate | reflexivity]. }
  rewrite Hg, He. cbn [negb orb].
  assert (Hread : unsigned_of_bytes
                    (fst (read sizeof_uint32_t (object_bytes sizeof_uint32_t 0) in_))
                  = unsigned_of_bytes (take 4 (in_bytes in_))
                  /\ in_bytes (snd (read sizeof_uint32_t
                                      (object_bytes sizeof_uint32_t 0) in_))
                     = drop 4 (in_bytes in_)).
  { unfold read. rewrite Hg. unfold sizeof_uint32_t.
    destruct (Nat.leb_spec 4 (length (in_bytes in_))) as [Hlen | Hlen]; cbn [fst snd].
    - auto.
    - rewrite (take_ge (in_bytes in_) 4), (drop_ge (in_bytes in_) 4) by lia. split.
      + unfold unsigned_of_bytes.
        assert (drop (length (in_bytes in_)) (object_bytes 4 0)
                = repeat Byte.x00 (4 - length (in_bytes in_))) as ->.
        { destruct (in_bytes in_) as [|? [|? [|? [|? [|? ?]]]]];
            try reflexivity; cbn in Hlen; lia. }
        apply le_combine_app_0.
      + unfold exhaust. destruct (io_error in_); reflexivity. }
  destruct Hread as [Hval Hrest]. rewrite Hval.
  destruct (Z.eqb_spec (unsigned_of_bytes (take 4 (in_bytes in_)))
              OMPL_ARCHIVE_MARKER) as [Heq | _]; [contradiction|].
  cbn [negb]. eexists. split; [reflexivity | exact Hrest].
Qed.

(** X9. [loadHeader] changes nothing but the messages: when it returns
    [true] it reports nothing, and when it returns [false] it reports
    exactly one warning or error. *)
Theorem loadHeader_reports sp in_ σ o in' σ' :
  loadHeader sp in_ σ = Defined ((o, in'), σ') ->
  states_ σ' = states_ σ /\ heap σ' = heap σ /\ trace σ' = trace σ
  /\ samplers σ' = samplers σ
  /\ match o with
     | Some _ => msg_ σ' = msg_ σ
     | None => exists m, msg_ σ' = msg_ σ ++ [m] /\ reported m = true
     end.
Proof.
  intros Hrun. apply loadHeader_inv in Hrun. destruct o as [header|].
  - subst σ'. auto.
  - destruct Hrun as (m & Hm & ->). cbn. repeat split.
    exists m. destruct m. auto.
Qed.

Lemma read_good_split n dst s :
  good (snd (read n dst s)) = true ->
  good s = true
  /\ in_bytes s = fst (read n dst s) ++ in_bytes (snd (read n dst s))
  /\ length (fst (read n dst s)) = n.
Proof.
  intros Hg. apply read_good_inv in Hg as (Hgs & Hlen & ->). cbn.
  split; [exact Hgs|]. split; [symmetry; apply take_drop|].
  apply length_take_le. exact Hlen.
Qed.

(** The elements the loop has compared, when it ends on a readable
    stream. *)
Lemma loadHeader_loop_bytes (sig : list Z) n : forall i s σ s' σ',
  loadHeader_loop sig n (Z.of_nat i) s σ = Defined ((true, s'), σ') ->
  good s' = true ->
  good s = true
  /\ in_bytes s = vector_bytes (take n (drop (S i) sig)) ++ in_bytes s'
  /\ length (take n (drop (S i) sig)) = n.
Proof.
  induction n as [|n IH]; intros i s σ s' σ' Hrun Hg'.
  - injection Hrun as <- <-. auto.
  - cbn [loadHeader_loop] in Hrun. destruct (good s) eqn:Hg.
    2:{ injection Hrun as <- <-. congruence. }
    apply bind_Defined in Hrun as (e & σ1 & Hat & Hrun).
    unfold vector_at in Hat.
    replace (0 <=? Z.of_nat i + 1) with true in Hat
      by (symmetry; apply Z.leb_le; lia).
    replace (Z.to_nat (Z.of_nat i + 1)) with (S i) in Hat by lia.
    unfold lift in Hat. destruct (sig !! S i) as [e'|] eqn:He; [|discriminate].
    injection Hat as <- <-.
    destruct (Z.eqb_spec (int_of_bytes
                (fst (read sizeof_int (object_bytes sizeof_int 0) s))) e')
      as [Heq | Hne]; cbn [negb] in Hrun; [|discriminate].
    replace (Z.of_nat i + 1) with (Z.of_nat (S i)) in Hrun by lia.
    apply IH in Hrun as (Hg1 & Hb1 & Hlen1); [|exact Hg'].
    apply read_good_split in Hg1 as (_ & Hb & Hlen).
    split; [reflexivity|].
    rewrite (drop_S sig e' (S i) He). cbn [take length].
    change (vector_bytes (e' :: ?l))
      with (object_bytes sizeof_int e' ++ vector_bytes l).
    rewrite <- Heq, (object_bytes_of_int _ Hlen), <- app_assoc, <- Hb1.
    split; [exact Hb | f_equal; exact Hlen1].
Qed.

(** X10. A header that [loadHeader] accepts, leaving the stream readable,
    was on the stream as [store] writes it: the marker, every element of the
    signature of the state space, and the two size fields it returns; just
    these bytes have been consumed. *)
Theorem loadHeader_sound sp in_ σ header in' σ' :
  signature_ok (computeSignature sp) ->
  loadHeader sp in_ σ = Defined ((Some header, in'), σ') ->
  good in' = true ->
  in_bytes in_
  = header_bytes (computeSignature sp) (state_count header) (metadata_size header)
    ++ in_bytes in'.
Proof.
  intros Hok Hrun Hg'.
  destruct (signature_ok_cons _ Hok) as (body & Hsig & _).
  unfold loadHeader in Hrun.
  destruct (negb (good in_) || eof in_); [discriminate|].
  destruct (Z.eqb_spec
    (unsigned_of_bytes (fst (read sizeof_uint32_t (object_bytes sizeof_uint32_t 0) in_)))
    OMPL_ARCHIVE_MARKER) as [Hmarker | _]; cbn [negb] in Hrun; [|discriminate].
  set (r0 := read sizeof_uint32_t (object_bytes sizeof_uint32_t 0) in_) in *.
  apply bind_Defined in Hrun as ([b s3] & σ1 & Hcheck & Hrun).
  cbn [fst snd] in Hrun. destruct b; cbn [negb] in Hrun; [|discriminate].
  (* the size fields *)
  unfold loadHeader_counts in Hrun.
  destruct (good s3) eqn:Hg3; [|discriminate].
  set (r1 := read sizeof_size_t (object_bytes sizeof_size_t 0) s3) in *.
  destruct (good (snd r1)) eqn:Hg4; [|discriminate].
  set (r2 := read sizeof_size_t (object_bytes sizeof_size_t 0) (snd r1)) in *.
  destruct (andb _ _); [discriminate|].
  injection Hrun as <- <- _. cbn [state_count metadata_size].
  apply read_good_split in Hg' as (_ & Hb2 & Hlen2). fold r2 in Hb2, Hlen2.
  apply read_good_split in Hg4 as (_ & Hb1 & Hlen1). fold r1 in Hb1, Hlen1.
  (* the signature *)
  unfold loadHeader_signature in Hcheck. rewrite Hsig in Hcheck.
  unfold bind at 1 in Hcheck. rewrite vector_at_0 in Hcheck.
  set (r := if good (snd r0)
            then read sizeof_int (object_bytes sizeof_int 0) (snd r0)
            else (object_bytes sizeof_int 0, snd r0)) in *.
  destruct (Z.eqb_spec (Z.of_nat (length body)) (int_of_bytes (fst r)))
    as [Hlen | _]; cbn [negb] in Hcheck; [|discriminate].
  rewrite <- Hlen, Nat2Z.id in Hcheck.
  apply (loadHeader_loop_bytes _ _ 0%nat) in Hcheck as (Hg2 & Hbody & _);
    [|exact Hg3].
  cbn [drop] in Hbody. rewrite firstn_all in Hbody.
  assert (Hr : good (snd r0) = true
               /\ in_bytes (snd r0) = fst r ++ in_bytes (snd r)
               /\ length (fst r) = sizeof_int).
  { subst r. destruct (good (snd r0)) eqn:Hg1.
    - apply read_good_split in Hg2 as (_ & Hb & Hl). auto.
    - cbn [snd] in Hg2. congruence. }
  destruct Hr as (Hg1 & Hbl & Hll).
  apply read_good_split in Hg1 as (_ & Hb0 & Hl0). fold r0 in Hb0, Hl0.
  rewrite Hb0, Hbl, Hbody, Hb1, Hb2. unfold header_bytes. rewrite Hsig.
  change (vector_bytes (?e :: ?l))
    with (object_bytes sizeof_int e ++ vector_bytes l).
  rewrite Hlen, (object_bytes_of_int _ Hll).
  rewrite <- Hmarker, (object_bytes_of_unsigned _ _ Hl0).
  rewrite (object_bytes_of_unsigned _ _ Hlen1), (object_bytes_of_unsigned _ _ Hlen2).
  rewrite <- !app_assoc. reflexivity.
Qed.

End Refusals.

(** ** What [store] writes and what [load] reads *)

Lemma length_header_bytes sig count size :
  length (header_bytes sig count size) = (4 + 4 * length sig + 16)%nat.
Proof.
  unfold header_bytes.
  rewrite !length_app, !length_object_bytes, length_vector_bytes.
  unfold sizeof_uint32_t, sizeof_size_t. lia.
Qed.

Lemma take_record {A} (n step : nat) (chunks : list (list A)) j (a b : list A) :
  Forall (fun c => length c = step) chunks ->
  chunks !! j = Some (a ++ b) -> length a = n ->
  take n (drop (j * step) (concat chunks)) = a.
Proof.
  intros Hall Hj Ha.
  assert (Hle : (n <= step)%nat).
  { rewrite Forall_forall in Hall.
    rewrite <- (Hall (a ++ b)) by (eapply list_elem_of_lookup_2; exact Hj).
    rewrite length_app. lia. }
  replace n with (n `min` step)%nat by lia.
  rewrite <- take_take, (take_drop_concat step chunks j (a ++ b) Hall Hj).
  apply take_app_length'. lia.
Qed.

Section StoreLoad.
Context {St Rng : Type}.
Implicit Types (sp : StateSpace St Rng) (σ : state St).

(** X11. [store] only reads the archive: the collection, the heap and the
    calls made to the state space are as before, and it only adds to the
    stream; on a stream that is not writable it writes nothing and warns. *)
Theorem store_reads_only sp out σ out' σ' :
  store sp out σ = Defined (out', σ') ->
  states_ σ' = states_ σ /\ heap σ' = heap σ /\ trace σ' = trace σ
  /\ (exists w, out_bytes out' = out_bytes out ++ w)
  /\ (out_good out = false ->
      out' = out /\ msg_ σ' = msg_ σ ++ [Msg Warn "Unable to store states"]).
Proof.
  intros Hrun. destruct (out_good out) eqn:Hg.
  - destruct (store_inv sp out σ out' σ' Hg Hrun) as (payload & Hb & ->).
    repeat split; [eexists; exact Hb | discriminate | discriminate].
  - unfold store in Hrun. rewrite Hg in Hrun. injection Hrun as <- <-.
    repeat split. exists []. rewrite app_nil_r. reflexivity.
Qed.

(** X12. The archive [store] writes has 4 bytes of marker, 4 bytes for
    each element of the signature, 16 bytes of size fields and the
    serialization length for each state; its [state_count] field holds the
    size of the collection and its [metadata_size] field holds 0. *)
Theorem store_layout sp out σ out' σ' :
  StateSpaceOk sp -> out_good out = true ->
  (forall h, h ∈ states_ σ -> is_Some (heap σ !! h)) ->
  Z.of_nat (length (states_ σ)) * getSerializationLength sp <= SIZE_MAX ->
  Z.of_nat (length (states_ σ)) <= SIZE_MAX ->
  store sp out σ = Defined (out', σ') ->
  Z.of_nat (length (written out out'))
  = 4 + 4 * Z.of_nat (length (computeSignature sp)) + 16
    + Z.of_nat (length (states_ σ)) * getSerializationLength sp
  /\ unsigned_of_bytes
       (take 8 (drop (4 + 4 * length (computeSignature sp)) (written out out')))
     = Z.of_nat (length (states_ σ))
  /\ unsigned_of_bytes
       (take 8 (drop (4 + 4 * length (computeSignature sp) + 8) (written out out')))
     = 0.
Proof.
  intros Hok Hg Hlive Hmax Hcount Hrun.
  destruct (states_values σ (states_ σ) Hlive) as [sts Hvals].
  destruct (store_spec sp out σ sts Hok Hg Hvals Hmax) as (out2 & Hstore & Hw).
  rewrite Hrun in Hstore. injection Hstore as <- _.
  pose proof Hok as [_ Hrange Hser _].
  assert (Hrecords : Forall (fun c => Z.of_nat (length c) = getSerializationLength sp)
                       (map (serialize sp) sts)).
  { apply Forall_forall. intros c (st & -> & _)%list_elem_of_fmap. apply Hser. }
  assert (Hpay : Z.of_nat (length (concat (map (serialize sp) sts)))
                 = Z.of_nat (length (states_ σ)) * getSerializationLength sp).
  { rewrite (Forall2_length _ _ _ Hvals). clear Hvals Hw.
    induction sts as [|st sts IH]; [reflexivity|].
    cbn [map concat length]. rewrite length_app, Nat2Z.inj_add, IH.
    - rewrite Hser. lia.
    - inversion Hrecords; assumption. }
  rewrite Hw. split; [|split].
  - rewrite length_app, length_header_bytes, Nat2Z.inj_add, Hpay. lia.
  - unfold header_bytes. rewrite !app_assoc, <- !(app_assoc _ _ (concat _)).
    rewrite <- (app_assoc _ (object_bytes sizeof_size_t _)).
    rewrite drop_app_length' by
      (rewrite length_app, length_object_bytes, length_vector_bytes;
       unfold sizeof_uint32_t; lia).
    rewrite take_app_length' by (rewrite length_object_bytes; reflexivity).
    rewrite size_t_of_object_bytes. apply wrap_size_t_small. lia.
  - unfold header_bytes. rewrite !app_assoc, <- !(app_assoc _ _ (concat _)).
    rewrite drop_app_length' by
      (rewrite !length_app, !length_object_bytes, length_vector_bytes;
       unfold sizeof_uint32_t, sizeof_size_t; lia).
    rewrite take_app_length' by (rewrite length_object_bytes; reflexivity).
    rewrite size_t_of_object_bytes. reflexivity.
Qed.

Lemma store_loop_dangling sp l hs : forall i buffer σ h,
  h ∈ hs -> heap σ !! h = None ->
  store_loop sp l hs i buffer σ = @Undefined (list byte * state St).
Proof.
  induction hs as [|h0 hs IH]; intros i buffer σ h Hin Hh; [inversion Hin|].
  cbn [store_loop]. unfold bind at 1, get_state.
  destruct (heap σ !! h0) as [st|] eqn:Hh0; [|reflexivity].
  unfold bind at 1. destruct (poke _ _ _); [|reflexivity]. cbn [lift ret].
  apply elem_of_cons in Hin as [-> | Hin]; [congruence|].
  eapply IH; eassumption.
Qed.

(** X13. [store] on an archive that holds a handle of a state that is not
    allocated is undefined: the state would be serialized after it was
    freed. *)
Theorem store_dangling sp out σ h :
  out_good out = true -> h ∈ states_ σ -> heap σ !! h = None ->
  store sp out σ = @Undefined (ostream * state St).
Proof.
  intros Hg Hin Hh. unfold store. rewrite Hg. cbn [negb].
  unfold bind at 1. destruct (vector_at _ _ σ) as [[e σ1]|] eqn:Hat; [|reflexivity].
  assert (σ1 = σ) as ->.
  { unfold vector_at, lift in Hat. cbn [Z.leb Z.compare] in Hat.
    destruct (computeSignature sp !! Z.to_nat 0); [|discriminate].
    injection Hat as _ <-. reflexivity. }
  unfold bind at 1, get_states. unfold bind at 1, msg. unfold bind at 1.
  rewrite (store_loop_dangling sp _ (states_ σ) 0 _
             (logged Debug "Serializing %u states" σ) h Hin Hh).
  reflexivity.
Qed.

Lemma load_spec_records sp (records : list (list byte * list byte)) size rest in_ σ :
  signature_ok (computeSignature sp) -> archive_ok σ -> good in_ = true ->
  0 <= getSerializationLength sp <= UINT_MAX -> 0 <= size ->
  records <> [] -> 0 < getSerializationLength sp + size ->
  Z.of_nat (length records) * (getSerializationLength sp + size) <= SIZE_MAX ->
  malloc_grants σ (Z.of_nat (length records) * (getSerializationLength sp + size))
  = true ->
  Forall (fun r => Z.of_nat (length (fst r)) = getSerializationLength sp
                   /\ Z.of_nat (length (snd r)) = size) records ->
  in_bytes in_
  = header_bytes (computeSignature sp) (Z.of_nat (length records)) size
    ++ payload_bytes records ++ rest ->
  exists in' σ',
    load sp in_ σ = Defined (in', σ')
    /\ in_bytes in' = rest /\ good in' = true
    /\ msg_ σ' = msg_ σ ++ [Msg Debug "Deserializing %u states"]
    /\ Forall2 (fun h r => heap σ' !! h = Some (deserialize sp (fst r)))
         (states_ σ') records.
Proof.
  intros Hsig Hok Hg Hrange Hsize Hne Hpos Hmax Hgrants Hrecs Hb.
  set (n := Z.to_nat (getSerializationLength sp)).
  set (step := Z.to_nat (getSerializationLength sp + size)).
  set (count := length records) in *.
  assert (Hn : getSerializationLength sp = Z.of_nat n) by (subst n; lia).
  assert (Hstep0 : getSerializationLength sp + size = Z.of_nat step) by (subst step; lia).
  assert (Hcount : (0 < count)%nat).
  { subst count. destruct records; [contradiction | cbn; lia]. }
  assert (Hchunks : Forall (fun c => length c = step)
                      (map (fun r => fst r ++ snd r) records)).
  { apply Forall_forall. intros c (r & -> & Hr)%list_elem_of_fmap.
    rewrite Forall_forall in Hrecs. destruct (Hrecs r Hr) as [H1 H2].
    rewrite length_app. lia. }
  assert (Hpay : length (payload_bytes records) = (count * step)%nat).
  { unfold payload_bytes. rewrite (length_concat_records step) by exact Hchunks.
    rewrite length_map. reflexivity. }
  unfold load. unfold bind at 1. rewrite (clear_spec σ Hok).
  unfold bind at 1.
  rewrite (loadHeader_spec sp (computeSignature sp) (Z.of_nat count) size
             (payload_bytes records ++ rest) in_ (cleared σ) Hsig Hsig Hg Hb).
  rewrite first_mismatch_refl. cbn [fst snd].
  rewrite (wrap_size_t_small (Z.of_nat count)) by nia.
  rewrite (wrap_size_t_small size) by nia.
  unfold bind at 1, malloc_or_NULL.
  unfold payload_length. cbn [state_count metadata_size].
  assert (Hstep : wrap_size_t (getSerializationLength sp + size) = Z.of_nat step).
  { rewrite Hstep0. apply wrap_size_t_small. nia. }
  rewrite Hstep, <- Nat2Z.inj_mul, wrap_size_t_small by nia.
  destruct (Z.eqb_spec (Z.of_nat (count * step)) 0) as [Hz | _]; [nia|].
  replace (malloc_grants (cleared σ) (Z.of_nat (count * step))) with true
    by (rewrite <- Hgrants, Hstep0; cbn [cleared malloc_grants]; f_equal; lia).
  rewrite !Nat2Z.id.
  set (s1 := advance _ in_).
  assert (Hb1 : in_bytes s1 = payload_bytes records ++ rest).
  { subst s1. cbn [advance in_bytes]. rewrite Hb. apply drop_app_length. }
  destruct (read_app (count * step) (malloc (Z.of_nat (count * step))) s1
              (payload_bytes records) rest Hg Hb1 Hpay) as [Hread Hrest].
  rewrite Hread. cbn [fst snd].
  assert (Hfail : fail (advance (count * step) s1) = false).
  { apply good_not_fail. exact Hg. }
  rewrite Hfail. cbn [negb]. unfold bind at 1, msg. unfold bind at 1.
  destruct (load_loop_spec sp (mkHeader (Z.of_nat count) size)
              (payload_bytes records) n step Hn Hstep ltac:(lia) count 0%nat
              (logged Debug "Deserializing %u states" (cleared σ))
              ltac:(rewrite Hpay; reflexivity) ltac:(cbn [Nat.add]; nia))
    as (τ & hs & Hrun & Hst & Hlen & Hval & _).
  change (Z.of_nat 0) with 0 in Hrun. rewrite Hrun.
  eexists _, τ. split; [reflexivity|]. split; [exact Hrest|].
  split; [exact Hg|]. split.
  - apply load_loop_inv in Hrun as (hs' & _ & _ & Hmsg & _). exact Hmsg.
  - cbn in Hst. rewrite Hst. apply Forall2_same_length_lookup.
    split; [exact Hlen|]. intros j h r Hh Hr.
    rewrite (Hval j h Hh). cbn [Nat.add]. do 2 f_equal.
    rewrite Forall_forall in Hrecs.
    destruct (Hrecs r (list_elem_of_lookup_2 _ _ _ Hr)) as [Hr1 _].
    apply (take_record n step _ j (fst r) (snd r) Hchunks); [|lia].
    rewrite list_lookup_fmap, Hr. reflexivity.
Qed.

(** X14. [load] decodes one state from each record of the payload and
    skips the metadata: on a stream with a header for [n] records of the
    serialization length plus [size] bytes of metadata, followed by the
    records and by anything else, when [malloc] returns a buffer for the
    records, it leaves [n] states, the i-th decoded from the first bytes of
    the i-th record, reports nothing, and leaves the stream readable just
    after the last record. *)
Theorem load_records sp (records : list (list byte * list byte)) size rest in_ σ :
  signature_ok (computeSignature sp) -> archive_ok σ -> good in_ = true ->
  0 <= getSerializationLength sp <= UINT_MAX -> 0 <= size ->
  records <> [] -> 0 < getSerializationLength sp + size ->
  Z.of_nat (length records) * (getSerializationLength sp + size) <= SIZE_MAX ->
  malloc_grants σ (Z.of_nat (length records) * (getSerializationLength sp + size))
  = true ->
  Forall (fun r => Z.of_nat (length (fst r)) = getSerializationLength sp
                   /\ Z.of_nat (length (snd r)) = size) records ->
  in_bytes in_
  = header_bytes (computeSignature sp) (Z.of_nat (length records)) size
    ++ payload_bytes records ++ rest ->
  exists in' σ',
    load sp in_ σ = Defined (in', σ')
    /\ in_bytes in' = rest /\ good in' = true
    /\ msg_ σ' = msg_ σ ++ [Msg Debug "Deserializing %u states"]
    /\ Forall2 (fun h r => heap σ' !! h = Some (deserialize sp (fst r)))
         (states_ σ') records.
Proof. exact (load_spec_records sp records size rest in_ σ). Qed.

(** X15. For an archive without states [store] writes the header alone,
    with a [state_count] of 0, and [load] of these bytes yields no state
    and reports nothing, whatever the serialization length of the state
    space. *)
Theorem empty_archive_store_load sp out σ σ2 :
  signature_ok (computeSignature sp) -> out_good out = true ->
  states_ σ = [] -> archive_ok σ2 ->
  exists out' in',
    store sp out σ = Defined (out', logged Debug "Serializing %u states" σ)
    /\ written out out' = header_bytes (computeSignature sp) 0 0
    /\ load sp (istream_of (written out out')) σ2 = Defined (in', cleared σ2)
    /\ in_bytes in' = [] /\ good in' = true.
Proof.
  intros Hsig Hg Hempty Hok2.
  destruct (signature_ok_cons _ Hsig) as (body & Hbody & _).
  assert (Hstore : store sp out σ
                   = Defined (write (header_bytes (computeSignature sp) 0 0) out,
                              logged Debug "Serializing %u states" σ)).
  { unfold store. rewrite Hg. cbn [negb]. unfold bind at 1.
    rewrite Hbody, vector_at_0. rewrite <- Hbody.
    unfold bind at 1, get_states. rewrite Hempty. cbn [length Z.of_nat].
    unfold bind at 1, msg. unfold bind at 1. rewrite Z.mul_0_r.
    cbn [store_loop ret]. do 2 f_equal.
    unfold write. cbn [out_good out_bytes]. rewrite Hg. cbn [out_good out_bytes].
    unfold header_bytes, malloc. cbn [Z.to_nat repeat wrap_size_t].
    change (wrap_size_t 0) with 0. cbn [Z.to_nat repeat].
    rewrite app_nil_r, <- !app_assoc. reflexivity. }
  assert (Hw : written out (write (header_bytes (computeSignature sp) 0 0) out)
               = header_bytes (computeSignature sp) 0 0).
  { unfold written, write. rewrite Hg. cbn [out_bytes]. apply drop_app_length. }
  eexists _, _. split; [exact Hstore|]. split; [exact Hw|].
  rewrite Hw. unfold load. unfold bind at 1. rewrite (clear_spec σ2 Hok2).
  unfold bind at 1.
  rewrite (loadHeader_spec sp (computeSignature sp) 0 0 []
             (istream_of (header_bytes (computeSignature sp) 0 0)) (cleared σ2)
             Hsig Hsig eq_refl ltac:(rewrite app_nil_r; reflexivity)).
  rewrite first_mismatch_refl. cbn [fst snd].
  unfold payload_length. cbn [state_count]. change (wrap_size_t 0) with 0.
  rewrite Z.mul_0_l. change (wrap_size_t 0 =? 0) with true. cbn match.
  split; [reflexivity|]. split; [|reflexivity].
  cbn [advance in_bytes istream_of]. apply drop_all.
Qed.

End StoreLoad.

(** ** Printing, files, and [load] followed by [store] *)

Lemma write_write a b out : write b (write a out) = write (a ++ b) out.
Proof.
  unfold write. destruct (out_good out) eqn:Hg; cbn [out_good out_bytes].
  - rewrite app_assoc. reflexivity.
  - rewrite Hg. reflexivity.
Qed.

Lemma write_nil out : write [] out = out.
Proof.
  unfold write. destruct out as [bs []]; cbn; [rewrite app_nil_r|]; reflexivity.
Qed.

Section PrintFiles.
Context {St Rng : Type}.
Implicit Types (sp : StateSpace St Rng) (σ : state St).

Lemma print_loop_spec (printState : St -> list byte) hs : forall sts out σ,
  Forall2 (fun h st => heap σ !! h = Some st) hs sts ->
  print_loop printState hs out σ
  = Defined (write (concat (map printState sts)) out, σ).
Proof.
  induction hs as [|h hs IH]; intros sts out σ Hvals.
  - inversion Hvals; subst. cbn. rewrite write_nil. reflexivity.
  - inversion Hvals as [|? st ? sts' Hh Hrest]; subst.
    cbn [print_loop map concat]. unfold bind at 1, get_state. rewrite Hh.
    rewrite (IH sts' _ σ Hrest), write_write. reflexivity.
Qed.

(** X16. [print] sends the rendering of every state to the stream, in the
    order of the collection, and leaves the archive as it is; for an
    archive without states it writes nothing. *)
Theorem print_collection (printState : St -> list byte) out σ sts :
  Forall2 (fun h st => heap σ !! h = Some st) (states_ σ) sts ->
  print printState out σ
  = Defined (write (concat (map printState sts)) out, σ)
  /\ (states_ σ = [] -> print printState out σ = Defined (out, σ)).
Proof.
  intros Hvals. unfold print, get_states. unfold bind at 1. split.
  - apply print_loop_spec, Hvals.
  - unfold bind. intros ->. reflexivity.
Qed.

(** X17. The file versions on a file that cannot be opened: [load] of a
    name without file warns that the states cannot be loaded and leaves the
    archive without states; [store] on a name that cannot be written warns
    that the states cannot be stored and leaves the files and the archive
    as they are. *)
Theorem files_not_opened sp fs filename σ :
  (archive_ok σ -> files fs !! filename = None ->
   load_file sp fs filename σ
   = Defined (tt, logged Warn "Unable to load states" (cleared σ)))
  /\ (filename ∈ unwritable fs ->
      store_file sp fs filename σ
      = Defined (fs, logged Warn "Unable to store states" σ)).
Proof.
  split.
  - intros Hok Hnone. unfold load_file, ifstream. rewrite Hnone.
    unfold bind. rewrite load_not_readable; [reflexivity | exact Hok | left; reflexivity].
  - intros Hin. unfold store_file, ofstream. rewrite decide_True by exact Hin.
    reflexivity.
Qed.



(** X20. [load] reads the payload only into a buffer: on an accepted
    header, when the size of the buffer is 0 or [malloc] returns [NULL],
    [load] stops after the header, reads nothing more, reports nothing and
    leaves no state, whatever the header declares. *)
Theorem load_without_buffer sp in_ σ header in1 σ1 :
  (clear ;;; loadHeader sp in_) σ = Defined ((Some header, in1), σ1) ->
  payload_length sp header = 0
  \/ malloc_grants σ (payload_length sp header) = false ->
  load sp in_ σ = Defined (in1, σ1)
  /\ states_ σ1 = [] /\ msg_ σ1 = msg_ σ
  /\ trace σ1 = trace σ ++ map EvFree (states_ σ).
Proof.
  intros Hhdr Hnone.
  apply bind_Defined in Hhdr as (u & σ0 & Hclear & Hhdr).
  pose proof (loadHeader_Some _ _ _ _ _ _ Hhdr) as (-> & _).
  pose proof (clear_inv _ _ _ Hclear) as (Hst0 & Hmsg0 & Htr0).
  rewrite <- (clear_malloc_grants _ _ _ Hclear) in Hnone.
  split; [|auto].
  unfold load. unfold bind at 1. rewrite Hclear.
  unfold bind at 1. rewrite Hhdr. cbn [fst snd].
  unfold bind at 1, malloc_or_NULL.
  destruct Hnone as [-> | ->]; [reflexivity|].
  destruct (payload_length sp header =? 0); reflexivity.
Qed.

End PrintFiles.

(** ** The further statements on the example archives *)

Lemma two_state_archive_ok : archive_ok two_state_archive.
Proof.
  split; [|exact two_state_archive_live].
  cbn. apply NoDup_cons. split; [|apply NoDup_singleton].
  intros Hin%list_elem_of_singleton. discriminate.
Qed.

Lemma two_state_archive_values :
  Forall2 (fun h st => heap two_state_archive !! h = Some st)
    (states_ two_state_archive) [5; -3].
Proof. repeat constructor. Qed.

Lemma tagged_records_ok :
  Forall (fun r => Z.of_nat (length (fst r)) = getSerializationLength IntSpace
                   /\ Z.of_nat (length (snd r)) = 3) tagged_records.
Proof. repeat constructor. Qed.

(** X2 on the archive of two states. *)
Lemma clear_frees_collection_witness :
  exists σ',
    clear two_state_archive = Defined (tt, σ')
    /\ states_ σ' = []
    /\ trace σ' = trace two_state_archive ++ map EvFree (states_ two_state_archive)
    /\ (forall h, heap σ' !! h
                  = if decide (h ∈ states_ two_state_archive) then None
                    else heap two_state_archive !! h)
    /\ msg_ σ' = msg_ two_state_archive
    /\ clear σ' = Defined (tt, σ').
Proof. apply (clear_frees_collection two_state_archive two_state_archive_ok). Defined.

(** X4: three samples added to the archive of two states. *)
Lemma generateSamples_owned_witness :
  exists σ',
    generateSamples IntSpace 3 two_state_archive = Defined (tt, σ')
    /\ archive_ok σ'
    /\ released (states_ σ') (heap σ')
       = released (states_ two_state_archive) (heap two_state_archive).
Proof.
  eexists. split; [vm_compute; reflexivity|].
  apply (generateSamples_owned IntSpace 3 two_state_archive).
  - exact two_state_archive_ok.
  - vm_compute. reflexivity.
Defined.

(** X5: the two states loaded over the archive of one state. *)
Lemma load_owned_witness :
  exists in' σ',
    load IntSpace (istream_of two_state_bytes) one_state_archive = Defined (in', σ')
    /\ archive_ok one_state_archive /\ archive_ok σ'
    /\ released (states_ σ') (heap σ') = heap (cleared one_state_archive).
Proof.
  eexists _, _. split; [vm_compute; reflexivity|].
  eapply (load_owned IntSpace (istream_of two_state_bytes) one_state_archive).
  vm_compute. reflexivity.
Defined.

(** X7: a stream with [failbit]. *)
Lemma load_unreadable_witness :
  load IntSpace (mkIstream two_state_bytes false true false false) one_state_archive
  = Defined (mkIstream two_state_bytes false true false false,
             logged Warn "Unable to load states" (cleared one_state_archive)).
Proof.
  apply (load_unreadable IntSpace (mkIstream two_state_bytes false true false false)
           one_state_archive).
  - exact one_state_archive_ok.
  - left. reflexivity.
Defined.

(** X8: the archive of two states with its first byte changed. *)
Lemma load_bad_marker_witness :
  exists in',
    load IntSpace (istream_of (Byte.x00 :: drop 1 two_state_bytes)) one_state_archive
    = Defined (in', logged Error
                      "The stored data does not start with the correct header"
                      (cleared one_state_archive))
    /\ in_bytes in' = drop 4 (Byte.x00 :: drop 1 two_state_bytes).
Proof.
  apply (load_bad_marker IntSpace
           (istream_of (Byte.x00 :: drop 1 two_state_bytes)) one_state_archive).
  - exact one_state_archive_ok.
  - reflexivity.
  - vm_compute. discriminate.
Defined.

(** X9: the header of the archive of two states, refused by [WideSpace]. *)
Lemma loadHeader_reports_witness :
  let σ' := logged Error "State space signatures do not match" empty_archive in
  states_ σ' = states_ empty_archive /\ heap σ' = heap empty_archive
  /\ trace σ' = trace empty_archive /\ samplers σ' = samplers empty_archive
  /\ exists m, msg_ σ' = msg_ empty_archive ++ [m] /\ reported m = true.
Proof.
  apply (loadHeader_reports WideSpace (istream_of two_state_bytes) empty_archive
           None (istream_of (drop 16 two_state_bytes))
           (logged Error "State space signatures do not match" empty_archive)).
  vm_compute. reflexivity.
Defined.

(** X10: the header of the archive of two states. *)
Lemma loadHeader_sound_witness :
  in_bytes (istream_of two_state_bytes)
  = header_bytes (computeSignature IntSpace) 2 0
    ++ in_bytes (istream_of (drop 32 two_state_bytes)).
Proof.
  apply (loadHeader_sound IntSpace (istream_of two_state_bytes) empty_archive
           (mkHeader 2 0) (istream_of (drop 32 two_state_bytes)) empty_archive).
  - exact IntSpace_signature_ok.
  - vm_compute. reflexivity.
  - reflexivity.
Defined.

(** X11: [store] of the archive of two states. *)
Lemma store_reads_only_witness :
  exists out' σ',
    store IntSpace (mkOstream [] true) two_state_archive = Defined (out', σ')
    /\ states_ σ' = states_ two_state_archive
    /\ heap σ' = heap two_state_archive
    /\ trace σ' = trace two_state_archive
    /\ (exists w, out_bytes out' = out_bytes (mkOstream [] true) ++ w).
Proof.
  eexists _, _. split; [vm_compute; reflexivity|].
  destruct (store_reads_only IntSpace (mkOstream [] true) two_state_archive
              (mkOstream two_state_bytes true)
              (logged Debug "Serializing %u states" two_state_archive))
    as (H1 & H2 & H3 & H4 & _).
  - vm_compute. reflexivity.
  - repeat split; assumption.
Defined.

(** X12: the archive of two states of [IntSpace] has 40 bytes. *)
Lemma store_layout_witness :
  Z.of_nat (length (written (mkOstream [] true) (mkOstream two_state_bytes true)))
  = 4 + 4 * Z.of_nat (length (computeSignature IntSpace)) + 16
    + Z.of_nat (length (states_ two_state_archive))
      * getSerializationLength IntSpace
  /\ unsigned_of_bytes
       (take 8 (drop (4 + 4 * length (computeSignature IntSpace))
                  (written (mkOstream [] true) (mkOstream two_state_bytes true))))
     = Z.of_nat (length (states_ two_state_archive))
  /\ unsigned_of_bytes
       (take 8 (drop (4 + 4 * length (computeSignature IntSpace) + 8)
                  (written (mkOstream [] true) (mkOstream two_state_bytes true))))
     = 0.
Proof.
  apply (store_layout IntSpace (mkOstream [] true) two_state_archive
           (mkOstream two_state_bytes true)
           (logged Debug "Serializing %u states" two_state_archive)).
  - exact IntSpace_ok.
  - reflexivity.
  - exact two_state_archive_live.
  - vm_compute. discriminate.
  - vm_compute. discriminate.
  - vm_compute. reflexivity.
Defined.

(** X13: [store] of the archive with a handle that is not allocated. *)
Lemma store_dangling_witness :
  store IntSpace (mkOstream [] true) dangling_archive = Undefined.
Proof.
  apply (store_dangling IntSpace (mkOstream [] true) dangling_archive 3%positive).
  - reflexivity.
  - left.
  - reflexivity.
Defined.

(** X14: [load] of the two records with 3 bytes of metadata each. *)
Lemma load_records_witness :
  exists in' σ',
    load IntSpace (istream_of tagged_bytes) one_state_archive = Defined (in', σ')
    /\ in_bytes in' = [] /\ good in' = true
    /\ msg_ σ' = msg_ one_state_archive ++ [Msg Debug "Deserializing %u states"]
    /\ Forall2 (fun h r => heap σ' !! h = Some (deserialize IntSpace (fst r)))
         (states_ σ') tagged_records.
Proof.
  apply (load_records IntSpace tagged_records 3 [] (istream_of tagged_bytes)
           one_state_archive).
  - exact IntSpace_signature_ok.
  - exact one_state_archive_ok.
  - reflexivity.
  - unfold UINT_MAX. cbn. lia.
  - lia.
  - discriminate.
  - reflexivity.
  - vm_compute. discriminate.
  - vm_compute. reflexivity.
  - exact tagged_records_ok.
  - vm_compute. reflexivity.
Defined.

(** X15: the archive without states, for [ZeroSpace]. *)
Lemma empty_archive_store_load_witness :
  exists out' in',
    store ZeroSpace (mkOstream [] true) empty_archive
    = Defined (out', logged Debug "Serializing %u states" empty_archive)
    /\ written (mkOstream [] true) out'
       = header_bytes (computeSignature ZeroSpace) 0 0
    /\ load ZeroSpace (istream_of (written (mkOstream [] true) out'))
         one_state_archive
       = Defined (in', cleared one_state_archive)
    /\ in_bytes in' = [] /\ good in' = true.
Proof.
  apply (empty_archive_store_load ZeroSpace (mkOstream [] true) empty_archive
           one_state_archive).
  - exact (signature_of_space _ ZeroSpace_ok).
  - reflexivity.
  - reflexivity.
  - exact one_state_archive_ok.
Defined.

(** X16: the archive of two states printed by their low bytes. *)
Lemma print_collection_witness :
  print print_low_byte (mkOstream [] true) two_state_archive
  = Defined (mkOstream [Byte.x05; Byte.xfd] true, two_state_archive).
Proof.
  apply (print_collection print_low_byte (mkOstream [] true) two_state_archive
           [5; -3] two_state_archive_values).
Defined.

(** X17 on the example files. *)
Lemma files_not_opened_witness :
  load_file IntSpace example_files "missing.ompl" one_state_archive
  = Defined (tt, logged Warn "Unable to load states" (cleared one_state_archive))
  /\ store_file IntSpace example_files "readonly.ompl" two_state_archive
     = Defined (example_files, logged Warn "Unable to store states" two_state_archive).
Proof.
  split.
  - apply (files_not_opened IntSpace example_files "missing.ompl" one_state_archive).
    + exact one_state_archive_ok.
    + reflexivity.
  - apply (files_not_opened IntSpace example_files "readonly.ompl" two_state_archive).
    vm_compute. reflexivity.
Defined.



(** X20: the header that declares [2^60] states, for which [malloc]
    returns no buffer. *)
Lemma load_without_buffer_witness :
  load IntSpace (istream_of oversized_archive) one_state_archive
  = Defined (advance 32 (istream_of oversized_archive), cleared one_state_archive)
  /\ states_ (cleared one_state_archive) = []
  /\ msg_ (cleared one_state_archive) = msg_ one_state_archive
  /\ trace (cleared one_state_archive)
     = trace one_state_archive ++ map EvFree (states_ one_state_archive).
Proof.
  apply (load_without_buffer IntSpace (istream_of oversized_archive)
           one_state_archive (mkHeader (2 ^ 60) 0)).
  - vm_compute. reflexivity.
  - right. vm_compute. reflexivity.
Defined.
